(** * grok-bot: the chat-history store, the message dispatcher and the
      completion client, embedded in Rocq.

    Sources: [bot/history.go], [bot/bot.go] ([handleMessage],
    [populateHistoryFromChannels], [doesMessageMention]) and
    [bot/grok_client.go] ([CreateChatCompletion], [CreateTextMessage],
    [CreateMultimodalMessage]).

    Go [int] is modelled as [Z]; Go strings as [string] (byte strings; the
    string helpers below follow the Go library on ASCII text). A Go map is a
    stdpp [gmap]. *)

From Stdlib Require Import ZArith Lia.
From Stdlib Require Import Ascii String QArith.
From stdpp Require Import base list gmap strings.

Set Warnings "-register-all".
Open Scope Z_scope.

(* ------------------------------------------------------------------ *)
(** ** Data model (grok_client.go) *)

(** [ContentItem]; the Go field [Type] is [Type_] ([Type] is a Rocq
    keyword). [ImageURL] is a nil-able pointer to a struct with one [URL]
    field. *)
Record ContentItem := mkContentItem {
  Type_ : string;
  Text : string;
  ImageURL : option string
}.

(** The Go field [Content interface{}] of [ChatMessage]. The code stores
    either a [string] or a [[]ContentItem] in it. *)
Inductive MsgContent :=
| CString (s : string)
| CItems (items : list ContentItem).

Record ChatMessage := mkChatMessage {
  Role : string;
  Content : MsgContent;
  Username : string
}.

(** [CreateTextMessage] *)
Definition CreateTextMessage (role content username : string) : ChatMessage :=
  mkChatMessage role (CString content) username.

(** [CreateMultimodalMessage] *)
Definition CreateMultimodalMessage (role textContent : string)
    (imageURLs : list string) (username : string) : ChatMessage :=
  match imageURLs with
  | [] => CreateTextMessage role textContent username
  | _ =>
      let textItems :=
        if bool_decide (textContent = "") then []
        else [mkContentItem "text" textContent None] in
      let imageItems :=
        map (fun u => mkContentItem "image_url" "" (Some u)) imageURLs in
      mkChatMessage role (CItems (textItems ++ imageItems)) username
  end.

(* ------------------------------------------------------------------ *)
(** ** ChatHistory (history.go)

    The stored slices are never shared outside the store ([Get] returns a
    copy, see module [Slices] below), so the map is modelled by value. *)

Record ChatHistory := mkChatHistory {
  maxMessages : Z;
  channelToMessages : gmap string (list ChatMessage)
}.

(** [NewChatHistory] *)
Definition NewChatHistory (max : Z) : ChatHistory :=
  let max := if max <=? 0 then 1 else max in
  mkChatHistory max ∅.

(** [messages[len(messages)-max:]] when [len(messages) > max]. *)
Definition trimTo (max : Z) (messages : list ChatMessage) : list ChatMessage :=
  if Z.of_nat (length messages) >? max
  then drop (Z.to_nat (Z.of_nat (length messages) - max)) messages
  else messages.

(** [Append]: a missing key reads as the nil slice. *)
Definition Append (h : ChatHistory) (channelID : string) (message : ChatMessage)
    : ChatHistory :=
  let messages := default [] (channelToMessages h !! channelID) in
  let messages := messages ++ [message] in
  let messages := trimTo (maxMessages h) messages in
  mkChatHistory (maxMessages h) (<[channelID := messages]> (channelToMessages h)).

(** [Get]: the contents of the copy it returns. *)
Definition Get (h : ChatHistory) (channelID : string) : list ChatMessage :=
  default [] (channelToMessages h !! channelID).

(** [SetMax]: the [range] loop only reassigns existing keys, so it visits
    every key once and acts as a map over the values. *)
Definition SetMax (h : ChatHistory) (newMax : Z) : ChatHistory :=
  let newMax := if newMax <=? 0 then 1 else newMax in
  mkChatHistory newMax (trimTo newMax <$> channelToMessages h).

(** [GetMax] *)
Definition GetMax (h : ChatHistory) : Z := maxMessages h.

(** A run of [Append] calls on one key. *)
Definition appendAll (h : ChatHistory) (channelID : string)
    (ms : list ChatMessage) : ChatHistory :=
  fold_left (fun h m => Append h channelID m) ms h.

(** The last [n] elements of a list. *)
Definition lastn {A} (n : nat) (l : list A) : list A := drop (length l - n) l.

(* ------------------------------------------------------------------ *)
(** ** The Go string functions used by the dispatcher

    Byte strings; on ASCII text these are the Go library functions. *)

(** [asciiSpace] of package strings: tab, LF, VT, FF, CR and space. *)
Definition isSpace (c : ascii) : bool :=
  let n := nat_of_ascii c in
  (Nat.eqb n 9 || Nat.eqb n 10 || Nat.eqb n 11 || Nat.eqb n 12
   || Nat.eqb n 13 || Nat.eqb n 32)%bool.

Fixpoint trimLeft (s : string) : string :=
  match s with
  | EmptyString => EmptyString
  | String c s' => if isSpace c then trimLeft s' else s
  end.

(** [strings.TrimSpace] *)
Definition TrimSpace (s : string) : string :=
  String.rev (trimLeft (String.rev (trimLeft s))).

Definition lowerAscii (c : ascii) : ascii :=
  let n := nat_of_ascii c in
  if (Nat.leb 65 n && Nat.leb n 90)%bool then ascii_of_nat (n + 32) else c.

(** [strings.ToLower] *)
Fixpoint ToLower (s : string) : string :=
  match s with
  | EmptyString => EmptyString
  | String c s' => String (lowerAscii c) (ToLower s')
  end.

(** [strings.Contains] *)
Fixpoint Contains (s substr : string) : bool :=
  (String.prefix substr s ||
   match s with
   | EmptyString => false
   | String _ s' => Contains s' substr
   end)%bool.

Fixpoint removeAllFuel (fuel : nat) (s old : string) : string :=
  match fuel with
  | O => s
  | S fuel' =>
      match s with
      | EmptyString => EmptyString
      | String c s' =>
          if String.prefix old s
          then removeAllFuel fuel'
                 (substring (String.length old)
                    (String.length s - String.length old) s) old
          else String c (removeAllFuel fuel' s' old)
      end
  end.

(** [strings.ReplaceAll(s, old, "")]: every call site replaces by the empty
    string. For an empty [old] Go returns [s] ([old == new]). *)
Definition ReplaceAllEmpty (s old : string) : string :=
  if bool_decide (old = "") then s else removeAllFuel (String.length s) s old.

(** [fmt.Sprintf("<@%s>", id)] *)
Definition mentionMarkup (id : string) : string := "<@" ++ id ++ ">".

(* ------------------------------------------------------------------ *)
(** ** The dispatcher (bot.go)

    An inbound [discordgo.MessageCreate], with its mention list given by the
    users' IDs. [imageURLs] is the result of
    [extractImageURLsFromAttachments] on its attachments (downloads, done
    by the transport collaborator). *)
Record MessageCreate := mkMessageCreate {
  AuthorID : string;
  AuthorUsername : string;
  ChannelID : string;
  MessageContent : string;
  Mentions : list string;
  imageURLs : list string
}.

(** [doesMessageMention] *)
Fixpoint doesMessageMention (users : list string) (id : string) : bool :=
  match users with
  | [] => false
  | u :: users' => if String.eqb u id then true else doesMessageMention users' id
  end.

(** The observable effects of one [handleMessage] call. *)
Inductive Effect :=
| ETyping (channelID : string)                        (* ChannelTyping *)
| ECompletion (messages : list ChatMessage)           (* CreateChatCompletion *)
| EMessageSend (channelID text : string)              (* ChannelMessageSend *)
| ESendReply (channelID text : string).               (* sendMessage *)

Definition apology : string :=
  "Sorry, I encountered an error processing your request. Please try again.".

(** The result of [grokClient.CreateChatCompletion]: an error or the reply
    text. *)
Inductive CompletionResult :=
| CompletionErr (err : string)
| CompletionOk (response : string).

(** The process-wide state [handleMessage] reads: the bot's user ID,
    [config.Bot.DefaultSystemMessage], and the completion client. *)
Record Dispatcher := mkDispatcher {
  botID : string;
  DefaultSystemMessage : string;
  complete : list ChatMessage -> CompletionResult
}.

(** The request built on the addressed path, from the cleaned content. *)
Definition buildRequest (d : Dispatcher) (h : ChatHistory) (message : MessageCreate)
    (content : string) : list ChatMessage :=
  let prior := Get h (ChannelID message) in
  [mkChatMessage "system" (CString (DefaultSystemMessage d)) ""] ++ prior ++
  [CreateMultimodalMessage "user" content (imageURLs message)
     (AuthorUsername message)].

(** [handleMessage]: the new history and the effects, in order. *)
Definition handleMessage (d : Dispatcher) (h : ChatHistory) (message : MessageCreate)
    : ChatHistory * list Effect :=
  if String.eqb (AuthorID message) (botID d) then (h, []) else
  let content := TrimSpace (MessageContent message) in
  let channelID := ChannelID message in
  let imageURLs := imageURLs message in
  if negb (doesMessageMention (Mentions message) (botID d)) then
    (Append h channelID
       (CreateMultimodalMessage "user" content imageURLs (AuthorUsername message)),
     [])
  else
    let content := ReplaceAllEmpty content (mentionMarkup (botID d)) in
    let messages := buildRequest d h message content in
    match complete d messages with
    | CompletionErr _ =>
        (h, [ETyping channelID; ECompletion messages;
             EMessageSend channelID apology])
    | CompletionOk response =>
        let h := Append h channelID
                   (CreateMultimodalMessage "user" content imageURLs
                      (AuthorUsername message)) in
        let h := Append h channelID (CreateTextMessage "assistant" response "") in
        (h, [ETyping channelID; ECompletion messages; ESendReply channelID response])
    end.

(* ------------------------------------------------------------------ *)
(** ** Startup history seeding ([populateHistoryFromChannels], one channel)

    A fetched [discordgo.Message]; [mAttachments] is [len(msg.Attachments)]
    and [mImageURLs] the result of [extractImageURLsFromAttachments]. The
    list is in the order the transport returns it (newest first). *)
Record DiscordMessage := mkDiscordMessage {
  mAuthorID : string;
  mUsername : string;
  mContent : string;
  mAttachments : nat;
  mImageURLs : list string;
  mMentions : list string
}.

(** The filter of lines 173-179. *)
Definition validMessages (messages : list DiscordMessage) : list DiscordMessage :=
  filter (fun msg => negb (String.eqb (mContent msg) "") || negb (Nat.eqb (mAttachments msg) 0))%bool
    messages.

(** The response scan of lines 225-237: [j] runs from [i-1] down while
    [j >= 0 && j > i-5]; the first message of the bot found ends it. *)
Fixpoint scanResponse (bot : string) (messages : list DiscordMessage)
    (steps j : nat) : option DiscordMessage :=
  match steps with
  | O => None
  | S steps' =>
      match messages !! j with
      | None => None
      | Some r =>
          if String.eqb (mAuthorID r) bot then Some r
          else match j with
               | O => None
               | S j' => scanResponse bot messages steps' j'
               end
      end
  end.

Definition findResponse (bot : string) (messages : list DiscordMessage) (i : nat)
    : option DiscordMessage :=
  match i with
  | O => None
  | S j => scanResponse bot messages 4 j
  end.

(** The body of the loop of lines 182-240 at index [i]. *)
Definition seedOne (bot channelID : string) (messages : list DiscordMessage)
    (i : nat) (h : ChatHistory) : ChatHistory :=
  match messages !! i with
  | None => h
  | Some msg =>
      if String.eqb (mAuthorID msg) bot then h else
      let content := TrimSpace (mContent msg) in
      let imageURLs := mImageURLs msg in
      if (String.eqb content "" && bool_decide (imageURLs = []))%bool then h else
      let addressed := doesMessageMention (mMentions msg) bot in
      let addressed :=
        if (negb addressed && negb (String.eqb content ""))%bool
        then Contains (ToLower content) "@grok" else addressed in
      let cleanContent :=
        if addressed
        then TrimSpace (ReplaceAllEmpty
                          (ToLower (ReplaceAllEmpty content (mentionMarkup bot)))
                          "@grok")
        else content in
      if (negb (String.eqb cleanContent "") || negb (bool_decide (imageURLs = [])))%bool
      then
        let h := Append h channelID
                   (CreateMultimodalMessage "user" cleanContent imageURLs (mUsername msg)) in
        if addressed then
          match findResponse bot messages i with
          | Some r =>
              let responseContent := TrimSpace (mContent r) in
              if negb (String.eqb responseContent "")
              then Append h channelID (mkChatMessage "assistant" (CString responseContent) "")
              else h
          | None => h
          end
        else h
      else h
  end.

(** [for i := len(messages) - 1; i >= 0; i--]: indices [k-1], ..., [0]. *)
Fixpoint seedLoop (bot channelID : string) (messages : list DiscordMessage)
    (k : nat) (h : ChatHistory) : ChatHistory :=
  match k with
  | O => h
  | S i => seedLoop bot channelID messages i (seedOne bot channelID messages i h)
  end.

Definition seedChannel (bot channelID : string) (fetched : list DiscordMessage)
    (h : ChatHistory) : ChatHistory :=
  let messages := validMessages fetched in
  seedLoop bot channelID messages (length messages) h.

(** The text a message carries (its string, or its text-typed parts) and
    its image parts. *)
Definition isTextItem (it : ContentItem) : bool := String.eqb (Type_ it) "text".
Definition isImageItem (it : ContentItem) : bool := String.eqb (Type_ it) "image_url".

Definition messageText (m : ChatMessage) : string :=
  match Content m with
  | CString s => s
  | CItems items => String.concat "" (map Text (filter isTextItem items))
  end.

Definition messageImages (m : ChatMessage) : list ContentItem :=
  match Content m with
  | CString _ => []
  | CItems items => filter isImageItem items
  end.

(** No text and no image part. *)
Definition isEmptyMessage (m : ChatMessage) : bool :=
  (String.eqb (messageText m) "" && bool_decide (messageImages m = []))%bool.

(* ------------------------------------------------------------------ *)
(** ** Reading the reply ([CreateChatCompletion], lines 149-175)

    A JSON value, and the dynamic Go value [encoding/json] stores into an
    [interface{}]: per its documentation, one of [bool], [float64],
    [string], [[]interface{}], [map[string]interface{}] or [nil]. An
    [interface{}] can also hold a [[]ContentItem] ([GContentItems]), which
    the decoder never builds. *)
Inductive JSON :=
| JNull
| JBool (b : bool)
| JNumber (literal : string)
| JString (s : string)
| JArray (xs : list JSON)
| JObject (fields : list (string * JSON)).

Inductive GoValue :=
| GNil
| GBool (b : bool)
| GFloat64 (literal : string)
| GString (s : string)
| GSliceIface (xs : list GoValue)
| GMapIface (fields : list (string * GoValue))
| GContentItems (items : list ContentItem).

(** [json.Unmarshal] into an [interface{}]. *)
Fixpoint unmarshalIface (j : JSON) : GoValue :=
  match j with
  | JNull => GNil
  | JBool b => GBool b
  | JNumber n => GFloat64 n
  | JString s => GString s
  | JArray xs => GSliceIface (map unmarshalIface xs)
  | JObject fields =>
      GMapIface (map (fun kv => (kv.1, unmarshalIface kv.2)) fields)
  end.

(** The type switch on [response.Choices[0].Message.Content]. *)
Definition extractContent (content : GoValue) : CompletionResult :=
  match content with
  | GString s => CompletionOk s
  | GContentItems items =>
      CompletionOk (String.concat "" (map Text (filter isTextItem items)))
  | _ => CompletionErr "unexpected content type in response"
  end.

(** From a body that unmarshalled: the [content] of each choice's
    [message], in order ([JNull] when absent). *)
Definition replyOfChoices (choices : list JSON) : CompletionResult :=
  match choices with
  | [] => CompletionErr "no choices returned from XAI API"
  | c :: _ => extractContent (unmarshalIface c)
  end.

(* ------------------------------------------------------------------ *)
(** ** Slices and their backing arrays

    [Get] and [CreateChatCompletion] are about sharing: a Go slice is a
    header over a backing array, so writes through one header are seen by
    every header over the same array. Arrays live in a heap indexed by
    [positive]. *)
Module Slices.

Definition loc := positive.

Record SliceHdr := mkSliceHdr { arr : loc; off : nat; len : nat }.

(** The elements a slice header shows. *)
Definition readSlice {A} (heap : gmap loc (list A)) (s : SliceHdr) : list A :=
  take (len s) (drop (off s) (default [] (heap !! arr s))).

(** [make([]T, n)] followed by [copy]: a fresh array holding [xs]. *)
Definition allocCopy {A} (heap : gmap loc (list A)) (xs : list A)
    : gmap loc (list A) * SliceHdr :=
  let l := fresh (dom heap) in
  (<[l := xs]> heap, mkSliceHdr l 0 (length xs)).

(** [s[i] = v]; [None] is the index-out-of-range panic. *)
Definition setIndex {A} (heap : gmap loc (list A)) (s : SliceHdr) (i : nat) (v : A)
    : option (gmap loc (list A)) :=
  if decide (i < len s)%nat then
    match heap !! arr s with
    | Some a => Some (<[arr s := <[(off s + i)%nat := v]> a]> heap)
    | None => None
    end
  else None.

Fixpoint setIndices {A} (heap : gmap loc (list A)) (s : SliceHdr)
    (writes : list (nat * A)) : option (gmap loc (list A)) :=
  match writes with
  | [] => Some heap
  | (i, v) :: writes' =>
      match setIndex heap s i v with
      | Some heap' => setIndices heap' s writes'
      | None => None
      end
  end.

(** The store of [ChatHistory]: the map holds slice headers, the arrays
    are in [msgHeap]. A missing key is the nil slice. *)
Record Store := mkStore {
  msgHeap : gmap loc (list ChatMessage);
  table : gmap string SliceHdr
}.

Definition stored (st : Store) (channelID : string) : list ChatMessage :=
  match table st !! channelID with
  | Some s => readSlice (msgHeap st) s
  | None => []
  end.

(** Every header of the map points into an allocated array. *)
Definition store_wf (st : Store) : Prop :=
  forall cid s, table st !! cid = Some s -> is_Some (msgHeap st !! arr s).

(** [Get]: [out := make([]ChatMessage, len(src)); copy(out, src)]. *)
Definition Get (st : Store) (channelID : string) : Store * SliceHdr :=
  let '(heap', out) := allocCopy (msgHeap st) (stored st channelID) in
  (mkStore heap' (table st), out).

(** The caller writing into the slice [Get] returned. *)
Definition writeOut (st : Store) (out : SliceHdr) (writes : list (nat * ChatMessage))
    : option Store :=
  match setIndices (msgHeap st) out writes with
  | Some heap' => Some (mkStore heap' (table st))
  | None => None
  end.

(** Messages as Go holds them: a [[]ContentItem] in [Content] is a header
    over an array of the item heap. *)
Inductive HContent :=
| HString (s : string)
| HItems (items : SliceHdr).

Record HMessage := mkHMessage {
  hRole : string;
  hContent : HContent;
  hUsername : string
}.

Definition derefMessage (items : gmap loc (list ContentItem)) (m : HMessage)
    : ChatMessage :=
  mkChatMessage (hRole m)
    (match hContent m with
     | HString s => CString s
     | HItems s => CItems (readSlice items s)
     end)
    (hUsername m).

(** A message's item slice, if any, points into an allocated array. *)
Definition hm_wf (items : gmap loc (list ContentItem)) (m : HMessage) : Prop :=
  match hContent m with
  | HString _ => True
  | HItems s => is_Some (items !! arr s)
  end.

Definition items_wf (items : gmap loc (list ContentItem)) (ms : list HMessage) : Prop :=
  Forall (hm_wf items) ms.

(** [fmt.Sprintf("[%s]: %s", username, text)] *)
Definition tag (username text : string) : string :=
  "[" ++ username ++ "]: " ++ text.

Definition tagItem (username : string) (it : ContentItem) : ContentItem :=
  if String.eqb (Type_ it) "text"
  then mkContentItem (Type_ it) (tag username (Text it)) (ImageURL it)
  else it.

(** The body of the formatting loop of [CreateChatCompletion] (lines
    87-105) on one message: [formattedMessages[i] = msg], then for a user
    message with a username a new [Content]; for [[]ContentItem] a fresh
    array [newContent] of the same length. *)
Definition formatMessage (items : gmap loc (list ContentItem)) (msg : HMessage)
    : gmap loc (list ContentItem) * HMessage :=
  if (negb (String.eqb (hUsername msg) "") && String.eqb (hRole msg) "user")%bool then
    match hContent msg with
    | HString content =>
        (items, mkHMessage (hRole msg) (HString (tag (hUsername msg) content))
                  (hUsername msg))
    | HItems content =>
        let '(items', newContent) :=
          allocCopy items (map (tagItem (hUsername msg)) (readSlice items content)) in
        (items', mkHMessage (hRole msg) (HItems newContent) (hUsername msg))
    end
  else (items, msg).

(** [formattedMessages := make([]ChatMessage, len(messages))] and the loop. *)
Fixpoint formatMessages (items : gmap loc (list ContentItem)) (messages : list HMessage)
    : gmap loc (list ContentItem) * list HMessage :=
  match messages with
  | [] => (items, [])
  | msg :: messages' =>
      let '(items1, fmsg) := formatMessage items msg in
      let '(items2, fmsgs) := formatMessages items1 messages' in
      (items2, fmsg :: fmsgs)
  end.

(** What the loop writes for one message, read on values: every user
    message with a username gets its string, or each of its text parts,
    prefixed [[username]: ]. *)
Definition tagMessage (m : ChatMessage) : ChatMessage :=
  if (negb (String.eqb (Username m) "") && String.eqb (Role m) "user")%bool then
    mkChatMessage (Role m)
      (match Content m with
       | CString s => CString (tag (Username m) s)
       | CItems its => CItems (map (tagItem (Username m)) its)
       end)
      (Username m)
  else m.

End Slices.

(* ------------------------------------------------------------------ *)
(** ** More of the client and the dispatcher *)

(** [CreateImageOnlyMessage] *)
Definition CreateImageOnlyMessage (role : string) (imageURLs : list string)
    (username : string) : ChatMessage :=
  CreateMultimodalMessage role "" imageURLs username.

(** The messages [CompleteText(prompt, systemMessage)] passes to
    [CreateChatCompletion]. *)
Definition CompleteTextMessages (prompt systemMessage : string) : list ChatMessage :=
  [mkChatMessage "system" (CString systemMessage) "";
   mkChatMessage "user" (CString prompt) ""].

(** The messages [CompleteTextWithSystem(systemMessage, userMessage)]
    passes to [CreateChatCompletion]. *)
Definition CompleteTextWithSystemMessages (systemMessage userMessage : string)
    : list ChatMessage :=
  [mkChatMessage "system" (CString systemMessage) "";
   mkChatMessage "user" (CString userMessage) ""].

(** *** Attachments and images (bot.go, lines 356-501) *)

(** [discordgo.MessageAttachment], the fields the code reads. *)
Record Attachment := mkAttachment {
  aURL : string;
  aFilename : string;
  aContentType : string
}.

(** [strings.HasSuffix] *)
Definition HasSuffix (s suffix : string) : bool :=
  String.prefix (String.rev suffix) (String.rev s).

Definition supportedImageTypes : list string :=
  ["image/jpeg"; "image/jpg"; "image/png"; "image/webp"].

Definition supportedExtensions : list string := [".jpg"; ".jpeg"; ".png"; ".webp"].

(** [isImageAttachment]; [None] is a nil pointer. *)
Definition isImageAttachment (attachment : option Attachment) : bool :=
  match attachment with
  | None => false
  | Some a =>
      if (negb (String.eqb (aContentType a) "") &&
          existsb (fun t => String.eqb (ToLower (aContentType a)) t) supportedImageTypes)%bool
      then true
      else if negb (String.eqb (aFilename a) "")
      then existsb (fun ext => HasSuffix (ToLower (aFilename a)) ext) supportedExtensions
      else false
  end.

(** An HTTP response as [downloadImage] reads it: the status code, the
    [Content-Type] header ([""] when absent) and the body, [None] when
    reading it fails. *)
Record HttpResponse := mkHttpResponse {
  StatusCode : Z;
  ContentTypeHeader : string;
  Body : option (list Byte.byte)
}.

(** The errors [downloadImage] returns, with the values its messages
    carry. *)
Inductive DownloadError :=
| EEmptyURL
| EFetchFailed
| EBadStatus (status : Z)
| EReadFailed
| ETooLarge (size max : Z).

Definition maxImageSize : Z := 20 * 1024 * 1024.

(** [downloadImage]: [fetch] is the outcome of [client.Get(url)], [None]
    when the request fails; it is only used for a non-empty URL. *)
Definition downloadImage (url : string) (fetch : option HttpResponse)
    : (list Byte.byte * string) + DownloadError :=
  if String.eqb url "" then inr EEmptyURL else
  match fetch with
  | None => inr EFetchFailed
  | Some resp =>
      if ((StatusCode resp <? 200) || (StatusCode resp >=? 300))%bool
      then inr (EBadStatus (StatusCode resp)) else
      match Body resp with
      | None => inr EReadFailed
      | Some imageData =>
          if Z.of_nat (length imageData) >? maxImageSize
          then inr (ETooLarge (Z.of_nat (length imageData)) maxImageSize) else
          let contentType :=
            if String.eqb (ContentTypeHeader resp) "" then "image/jpeg"
            else ContentTypeHeader resp in
          inl (imageData, contentType)
      end
  end.

(** [base64.StdEncoding.EncodeToString]: three bytes to four characters of
    the standard alphabet, [=] padding. *)
Definition b64Alphabet : string :=
  "ABCDEFGHIJKLMNOPQRSTUVWXYZabcdefghijklmnopqrstuvwxyz0123456789+/".

Definition b64Char (n : Z) : ascii :=
  match String.get (Z.to_nat n) b64Alphabet with Some c => c | None => "="%char end.

Definition byteZ (b : Byte.byte) : Z := Z.of_nat (Byte.to_nat b).

Fixpoint EncodeToString (bs : list Byte.byte) : string :=
  match bs with
  | b1 :: b2 :: b3 :: rest =>
      let n := Z.lor (Z.shiftl (byteZ b1) 16) (Z.lor (Z.shiftl (byteZ b2) 8) (byteZ b3)) in
      String (b64Char (Z.land (Z.shiftr n 18) 63)) (String (b64Char (Z.land (Z.shiftr n 12) 63))
        (String (b64Char (Z.land (Z.shiftr n 6) 63)) (String (b64Char (Z.land n 63))
          (EncodeToString rest))))
  | [b1; b2] =>
      let n := Z.lor (Z.shiftl (byteZ b1) 16) (Z.shiftl (byteZ b2) 8) in
      String (b64Char (Z.land (Z.shiftr n 18) 63)) (String (b64Char (Z.land (Z.shiftr n 12) 63))
        (String (b64Char (Z.land (Z.shiftr n 6) 63)) "="))
  | [b1] =>
      let n := Z.shiftl (byteZ b1) 16 in
      String (b64Char (Z.land (Z.shiftr n 18) 63)) (String (b64Char (Z.land (Z.shiftr n 12) 63)) "==")
  | [] => ""
  end.

(** [imageToDataURL] *)
Definition imageToDataURL (imageData : list Byte.byte) (contentType : string) : string :=
  "data:" ++ contentType ++ ";base64," ++ EncodeToString imageData.

(** [extractImageURLsFromAttachments]: [responses] are the outcomes of the
    successive [client.Get] calls (one per image attachment with a
    non-empty URL; a missing outcome is a failed request). Returns the data
    URLs and the outcomes left. *)
Fixpoint extractImageURLsFromAttachments (attachments : list (option Attachment))
    (responses : list (option HttpResponse))
    : list string * list (option HttpResponse) :=
  match attachments with
  | [] => ([], responses)
  | attachment :: rest =>
      match attachment with
      | Some a =>
          if isImageAttachment attachment then
            let '(fetch, responses') :=
              if String.eqb (aURL a) "" then (None, responses)
              else match responses with
                   | [] => (None, [])
                   | r :: rs => (r, rs)
                   end in
            match downloadImage (aURL a) fetch with
            | inl (imageData, contentType) =>
                let '(urls, pending) := extractImageURLsFromAttachments rest responses' in
                (imageToDataURL imageData contentType :: urls, pending)
            | inr _ => extractImageURLsFromAttachments rest responses'
            end
          else extractImageURLsFromAttachments rest responses
      | None => extractImageURLsFromAttachments rest responses
      end
  end.

(** *** Sending the reply (bot.go, lines 297-354) *)

Definition MaxDiscordFileSize : Z := 8 * 1024 * 1024.

(** The steps of [sendAsMarkdownFile] that can fail. *)
Inductive FileStep := SCreate | SWrite | SStat | SOpen | SSend.

Inductive SendError :=
| SendFailed                      (* ChannelMessageSend returned an error *)
| FileStepFailed (step : FileStep)
| FileTooLarge (size : Z).

(** What the transport and the file system do: the step that fails, if
    any; whether [ChannelMessageSend] fails; the name [os.CreateTemp]
    picks; the formatted [time.Now()]. *)
Record SendEnv := mkSendEnv {
  failingStep : option FileStep;
  inlineFails : bool;
  tempName : string;
  timestamp : string
}.

Inductive SendEffect :=
| SMessageSend (channelID content : string)
| SFileSend (channelID filename content : string).

Global Instance FileStep_eq_dec : EqDecision FileStep.
Proof. solve_decision. Defined.

Definition fails (env : SendEnv) (step : FileStep) : bool :=
  match failingStep env with
  | Some s => bool_decide (s = step)
  | None => false
  end.

(** [sendAsMarkdownFile] on the set of existing file names: the file
    exists from [os.CreateTemp] on, and the deferred [os.Remove] deletes
    it on every return after that. *)
Definition sendAsMarkdownFile (env : SendEnv) (files : gset string)
    (channelID content : string)
    : gset string * list SendEffect * option SendError :=
  let filename : string := ("grok_response_" ++ timestamp env ++ ".md")%string in
  if fails env SCreate then (files, [], Some (FileStepFailed SCreate)) else
  let created := {[tempName env]} ∪ files in
  let removed := created ∖ {[tempName env]} in
  if fails env SWrite then (removed, [], Some (FileStepFailed SWrite)) else
  if fails env SStat then (removed, [], Some (FileStepFailed SStat)) else
  let size := Z.of_nat (String.length content) in
  if size >? MaxDiscordFileSize then (removed, [], Some (FileTooLarge size)) else
  if fails env SOpen then (removed, [], Some (FileStepFailed SOpen)) else
  let sent := [SFileSend channelID filename content] in
  if fails env SSend then (removed, sent, Some (FileStepFailed SSend))
  else (removed, sent, None).

(** [sendMessage], with [config.Bot.MaxMessageSize]. *)
Definition sendMessage (maxMessageSize : Z) (env : SendEnv) (files : gset string)
    (channelID content : string)
    : gset string * list SendEffect * option SendError :=
  if Z.of_nat (String.length content) <=? maxMessageSize then
    (files, [SMessageSend channelID content],
     if inlineFails env then Some SendFailed else None)
  else sendAsMarkdownFile env files channelID content.

(** *** Configuration (config.go) *)

(** A [float64]: the finite values are rationals; comparisons with NaN
    are false. *)
Inductive Float64 :=
| FFinite (q : Q)
| FPosInf
| FNegInf
| FNaN.

Definition fltLt (x : Float64) (q : Q) : bool :=
  match x with
  | FFinite r => negb (Qle_bool q r)
  | FNegInf => true
  | _ => false
  end.

Definition fltGt (x : Float64) (q : Q) : bool :=
  match x with
  | FFinite r => negb (Qle_bool r q)
  | FPosInf => true
  | _ => false
  end.

Record GrokConfig := mkGrokConfig {
  APIKey : string;
  BaseURL : string;
  Model : string;
  Temperature : Float64;
  MaxTokens : Z;
  Timeout : Z;            (* time.Duration, nanoseconds *)
  Stream : bool
}.

Record BotConfig := mkBotConfig {
  MaxHistory : Z;
  Verbose : bool;
  EnableEmojis : bool;
  EnableHistory : bool;
  MaxMessageSize : Z;
  BotDefaultSystemMessage : string
}.

Record Config := mkConfig {
  DiscordToken : string;
  Grok : GrokConfig;
  Bot : BotConfig;
  ServerPort : string;
  ServerEnabled : bool
}.

(** [Config.Validate]: [None] is a nil error. *)
Definition Validate (c : Config) : option string :=
  if String.eqb (DiscordToken c) "" then Some "discord token is required" else
  if String.eqb (APIKey (Grok c)) "" then Some "grok api key is required" else
  if String.eqb (BaseURL (Grok c)) "" then Some "grok base url is required" else
  if String.eqb (Model (Grok c)) "" then Some "grok model is required" else
  if (fltLt (Temperature (Grok c)) 0 || fltGt (Temperature (Grok c)) 2)%bool
  then Some "grok temperature must be between 0 and 2" else
  if MaxTokens (Grok c) <=? 0 then Some "grok max tokens must be greater than 0" else
  if MaxHistory (Bot c) <=? 0 then Some "bot max history must be greater than 0" else
  if MaxMessageSize (Bot c) <=? 0 then Some "bot max message size must be greater than 0"
  else None.

(** [DefaultConfig]; [systemMessage] is the value of
    [getDefaultSystemMessage()], which [Validate] does not read. *)
Definition DefaultConfig (systemMessage : string) : Config :=
  mkConfig ""
    (mkGrokConfig "" "https://api.x.ai/v1" "grok-4-fast" (FFinite (1 # 2)) 1000
       (120 * 1000000000) false)
    (mkBotConfig 100 false true true 2000 systemMessage)
    "8080" true.

(** The configuration with the two secrets set, as [LoadConfig] does from
    the environment. *)
Definition withSecrets (c : Config) (token apiKey : string) : Config :=
  mkConfig token
    (mkGrokConfig apiKey (BaseURL (Grok c)) (Model (Grok c)) (Temperature (Grok c))
       (MaxTokens (Grok c)) (Timeout (Grok c)) (Stream (Grok c)))
    (Bot c) (ServerPort c) (ServerEnabled c).

(* ================================================================== *)
(** * Properties *)

(** ** ChatHistory *)

Section History.

Example NewChatHistory_coerces : maxMessages (NewChatHistory (-3)) = 1.
Proof. reflexivity. Qed.

Lemma lastn_le {A} (n : nat) (l : list A) :
  (length l <= n)%nat -> lastn n l = l.
Proof. intros H. unfold lastn. replace (length l - n)%nat with 0%nat by lia. done. Qed.

Lemma length_lastn {A} (n : nat) (l : list A) :
  length (lastn n l) = Nat.min (length l) n.
Proof. unfold lastn. rewrite length_drop. lia. Qed.

Lemma lastn_lastn_app {A} (n : nat) (l k : list A) :
  lastn n (lastn n l ++ k) = lastn n (l ++ k).
Proof.
  destruct (decide (length l <= n)%nat) as [Hle|Hgt].
  - by rewrite (lastn_le n l Hle).
  - unfold lastn at 2 3. rewrite <- (drop_app_le l k) by lia.
    unfold lastn. rewrite drop_drop, length_drop, !length_app. f_equal. lia.
Qed.

Lemma trimTo_lastn (max : Z) (messages : list ChatMessage) :
  0 <= max -> trimTo max messages = lastn (Z.to_nat max) messages.
Proof.
  intros Hmax. unfold trimTo, lastn.
  destruct (Z.of_nat (length messages) >? max) eqn:E.
  - apply Z.gtb_lt in E. f_equal. lia.
  - rewrite Z.gtb_ltb, Z.ltb_ge in E. replace (length messages - Z.to_nat max)%nat with 0%nat by lia.
    done.
Qed.

Lemma Get_Append_eq (h : ChatHistory) (cid : string) (m : ChatMessage) :
  Get (Append h cid m) cid = trimTo (maxMessages h) (Get h cid ++ [m]).
Proof. unfold Get, Append; simpl. by rewrite lookup_insert_eq. Qed.

Lemma Get_Append_ne (h : ChatHistory) (cid cid' : string) (m : ChatMessage) :
  cid <> cid' -> Get (Append h cid m) cid' = Get h cid'.
Proof. intros Hne. unfold Get, Append; simpl. by rewrite lookup_insert_ne. Qed.

Lemma maxMessages_Append (h : ChatHistory) (cid : string) (m : ChatMessage) :
  maxMessages (Append h cid m) = maxMessages h.
Proof. reflexivity. Qed.

Lemma Get_appendAll (h : ChatHistory) (cid : string) (ms : list ChatMessage) :
  0 <= maxMessages h ->
  (length (Get h cid) <= Z.to_nat (maxMessages h))%nat ->
  Get (appendAll h cid ms) cid = lastn (Z.to_nat (maxMessages h)) (Get h cid ++ ms).
Proof.
  revert h. induction ms as [|m ms IH]; intros h Hmax Hlen.
  - simpl. rewrite app_nil_r. by rewrite lastn_le.
  - simpl. rewrite IH by (rewrite ?maxMessages_Append, ?Get_Append_eq, ?trimTo_lastn,
                            ?length_lastn; lia).
    rewrite maxMessages_Append, Get_Append_eq, trimTo_lastn by lia.
    rewrite lastn_lastn_app. by rewrite <- app_assoc.
Qed.

Lemma maxMessages_appendAll (h : ChatHistory) (cid : string) (ms : list ChatMessage) :
  maxMessages (appendAll h cid ms) = maxMessages h.
Proof. revert h. induction ms as [|m ms IH]; intros h; [done|]. simpl. by rewrite IH. Qed.

End History.

Definition msgA : ChatMessage := CreateTextMessage "user" "A" "ann".
Definition msgB : ChatMessage := CreateTextMessage "user" "B" "bob".
Definition msgC : ChatMessage := CreateTextMessage "user" "C" "ann".
Definition msgD : ChatMessage := CreateTextMessage "user" "D" "bob".

Example appendAll_example :
  Get (appendAll (NewChatHistory 3) "C1" [msgA; msgB; msgC; msgD]) "C1" = [msgB; msgC; msgD].
Proof. reflexivity. Qed.

Lemma SetMax_capacity (n : Z) :
  (if n <=? 0 then 1 else n) = Z.max n 1.
Proof. destruct (Z.leb_spec n 0); lia. Qed.

(** C1: with capacity [C >= 1], [N] appends to a key with no history leave
    the last [min(N, C)] of them, in order; after every prefix of the run
    the key holds at most [C] messages. *)
Theorem Append_keeps_last_C (C : Z) (h : ChatHistory) (cid : string)
    (ms : list ChatMessage) :
  1 <= C -> maxMessages h = C -> Get h cid = [] ->
  Get (appendAll h cid ms) cid = lastn (Z.to_nat C) ms /\
  length (Get (appendAll h cid ms) cid) = Nat.min (length ms) (Z.to_nat C) /\
  (forall j : nat, (length (Get (appendAll h cid (take j ms)) cid) <= Z.to_nat C)%nat).
Proof.
  intros HC Hmax Hempty.
  assert (Hrun : forall ms', Get (appendAll h cid ms') cid = lastn (Z.to_nat C) ms').
  { intros ms'. rewrite Get_appendAll by (rewrite ?Hempty; simpl; lia).
    by rewrite Hmax, Hempty. }
  split; [|split].
  - apply Hrun.
  - by rewrite Hrun, length_lastn.
  - intros j. rewrite Hrun, length_lastn. lia.
Qed.

Lemma Append_keeps_last_C_witness :
  (1 <= 2 /\ maxMessages (NewChatHistory 2) = 2 /\ Get (NewChatHistory 2) "c" = []) /\
  Get (appendAll (NewChatHistory 2) "c" [msgA; msgB; msgC]) "c" = lastn 2 [msgA; msgB; msgC].
Proof.
  split; [split; [lia | split; reflexivity]|].
  apply (Append_keeps_last_C 2 (NewChatHistory 2) "c" [msgA; msgB; msgC]);
    [lia | reflexivity | reflexivity].
Defined.

(** C10: appending to one key leaves every other key's entry unchanged. *)
Theorem Append_other_key_unchanged (h : ChatHistory) (k k' : string) (m : ChatMessage) :
  k <> k' ->
  channelToMessages (Append h k m) !! k' = channelToMessages h !! k' /\
  Get (Append h k m) k' = Get h k'.
Proof.
  intros Hne. split.
  - simpl. by rewrite lookup_insert_ne.
  - by apply Get_Append_ne.
Qed.

Lemma Append_other_key_unchanged_witness :
  "a" <> "b" /\
  Get (Append (Append (NewChatHistory 2) "b" msgB) "a" msgA) "b"
  = Get (Append (NewChatHistory 2) "b" msgB) "b".
Proof.
  split; [discriminate|].
  apply (Append_other_key_unchanged (Append (NewChatHistory 2) "b" msgB) "a" "b" msgA).
  discriminate.
Defined.

(** C6: [SetMax n] sets the capacity to [max(n, 1)] and trims every key to
    its most recent [max(n, 1)] messages, keeping the keys; when no key
    holds more than that, the stored map is unchanged. *)
Theorem SetMax_trims (h : ChatHistory) (n : Z) :
  maxMessages (SetMax h n) = Z.max n 1 /\
  dom (channelToMessages (SetMax h n)) = dom (channelToMessages h) /\
  (forall k, Get (SetMax h n) k = lastn (Z.to_nat (Z.max n 1)) (Get h k)) /\
  ((forall k, (length (Get h k) <= Z.to_nat (Z.max n 1))%nat) ->
   channelToMessages (SetMax h n) = channelToMessages h).
Proof.
  unfold SetMax; simpl. rewrite SetMax_capacity.
  split; [done|]. split; [by rewrite dom_fmap_L|]. split.
  - intros k. unfold Get; simpl. rewrite lookup_fmap.
    destruct (channelToMessages h !! k); simpl; [|done].
    apply trimTo_lastn. lia.
  - intros Hall. apply map_eq. intros k. rewrite lookup_fmap.
    destruct (channelToMessages h !! k) as [msgs|] eqn:E; simpl; [|done].
    f_equal. rewrite trimTo_lastn by lia. apply lastn_le.
    specialize (Hall k). unfold Get in Hall. by rewrite E in Hall.
Qed.

Lemma SetMax_trims_witness :
  let h := appendAll (NewChatHistory 3) "c" [msgA; msgB] in
  (forall k, (length (Get h k) <= Z.to_nat (Z.max 5 1))%nat) /\
  channelToMessages (SetMax h 5) = channelToMessages h.
Proof.
  intros h.
  assert (Hall : forall k, (length (Get h k) <= Z.to_nat (Z.max 5 1))%nat).
  { intros k. unfold h, appendAll; simpl.
    destruct (decide (k = "c")) as [->|Hne].
    - vm_compute. lia.
    - rewrite !Get_Append_ne by congruence.
      unfold Get; simpl. rewrite lookup_empty. simpl. lia. }
  split; [exact Hall|].
  apply (proj2 (proj2 (proj2 (SetMax_trims h 5)))). exact Hall.
Defined.

(** ** The string helpers on concrete inputs *)

Example TrimSpace_example : TrimSpace " 	 what's up
" = "what's up".
Proof. reflexivity. Qed.

Example ReplaceAllEmpty_example :
  ReplaceAllEmpty "<@B> hi <@B>" (mentionMarkup "B") = " hi ".
Proof. reflexivity. Qed.

Example Contains_ToLower_example : Contains (ToLower "Hey @GroK!") "@grok" = true.
Proof. reflexivity. Qed.

(** ** The dispatcher *)

Section Dispatch.

Definition h0 : ChatHistory := NewChatHistory 10.

(** A bot with ID ["B"] whose completion call answers ["hi"], and one whose
    completion call fails. *)
Definition botOk : Dispatcher := mkDispatcher "B" "sys" (fun _ => CompletionOk "hi").
Definition botFail : Dispatcher :=
  mkDispatcher "B" "sys" (fun _ => CompletionErr "XAI API error: boom (code: 500)").

Definition userMsg (content : string) (mentions : list string) : MessageCreate :=
  mkMessageCreate "U" "ann" "c" content mentions [].

Lemma handleMessage_not_mentioned (d : Dispatcher) (h : ChatHistory) (message : MessageCreate) :
  AuthorID message <> botID d ->
  doesMessageMention (Mentions message) (botID d) = false ->
  handleMessage d h message =
  (Append h (ChannelID message)
     (CreateMultimodalMessage "user" (TrimSpace (MessageContent message))
        (imageURLs message) (AuthorUsername message)), []).
Proof.
  intros Hauthor Hment. unfold handleMessage.
  apply String.eqb_neq in Hauthor. by rewrite Hauthor, Hment.
Qed.

(** The code's rule: a message not from the bot makes a completion call
    exactly when its mention list holds the bot's ID. *)
Lemma handleMessage_calls_completion_iff_mention (d : Dispatcher) (h : ChatHistory)
    (message : MessageCreate) :
  AuthorID message <> botID d ->
  (exists req, ECompletion req ∈ (handleMessage d h message).2) <->
  doesMessageMention (Mentions message) (botID d) = true.
Proof.
  intros Hauthor.
  destruct (doesMessageMention (Mentions message) (botID d)) eqn:Hment.
  - split; [done|]. intros _. unfold handleMessage.
    apply String.eqb_neq in Hauthor. rewrite Hauthor, Hment. simpl.
    destruct (complete d _); simpl; eexists; constructor; constructor.
  - rewrite handleMessage_not_mentioned by done. simpl.
    split; [intros [req Hin]; set_solver | done].
Qed.

(** C2 (code bug): ["@grok what's up"] from another user, with an empty
    mention list, holds the trigger token once lower-cased, yet
    [handleMessage] only appends it as an observation: no completion call,
    no effect at all. *)
Theorem handleMessage_text_trigger_ignored :
  Contains (ToLower (TrimSpace (MessageContent (userMsg "@grok what's up" []))))
    "@grok" = true /\
  handleMessage botOk h0 (userMsg "@grok what's up" []) =
  (Append h0 "c" (CreateTextMessage "user" "@grok what's up" "ann"), []).
Proof. split; reflexivity. Qed.

(** C3 (code bug): a message with empty text and no image (for instance
    one whose only attachment is not an image) that does not mention the
    bot is stored as a user message with no text and no image part. *)
Theorem handleMessage_stores_empty_message :
  Get (handleMessage botOk h0 (userMsg "" [])).1 "c" =
    [CreateTextMessage "user" "" "ann"] /\
  isEmptyMessage (CreateTextMessage "user" "" "ann") = true.
Proof. split; reflexivity. Qed.

(** C4 (code bug): an addressed message ["<@B> @grok hello"] from a user
    mentioning bot ["B"] is stored, and sent, as [" @grok hello"]: the
    trigger token stays and the space left by the mention is not trimmed
    (the cleaned text the policy prescribes is ["hello"]). *)
Theorem handleMessage_cleaning_incomplete :
  let message := userMsg "<@B> @grok hello" ["B"] in
  (handleMessage botOk h0 message).2 =
    [ETyping "c";
     ECompletion [mkChatMessage "system" (CString "sys") "";
                  CreateTextMessage "user" " @grok hello" "ann"];
     ESendReply "c" "hi"] /\
  Get (handleMessage botOk h0 message).1 "c" =
    [CreateTextMessage "user" " @grok hello" "ann";
     CreateTextMessage "assistant" "hi" ""].
Proof. split; reflexivity. Qed.

(** C5: when the bot is mentioned and the completion call fails, the
    handler sends the apology and returns the history it was given. *)
Theorem handleMessage_failure_keeps_history (d : Dispatcher) (h : ChatHistory)
    (message : MessageCreate) (err : string) :
  AuthorID message <> botID d ->
  doesMessageMention (Mentions message) (botID d) = true ->
  let content :=
    ReplaceAllEmpty (TrimSpace (MessageContent message)) (mentionMarkup (botID d)) in
  complete d (buildRequest d h message content) = CompletionErr err ->
  handleMessage d h message =
  (h, [ETyping (ChannelID message); ECompletion (buildRequest d h message content);
       EMessageSend (ChannelID message) apology]).
Proof.
  intros Hauthor Hment content Hfail. unfold handleMessage.
  apply String.eqb_neq in Hauthor. rewrite Hauthor, Hment. simpl.
  fold content. by rewrite Hfail.
Qed.

Lemma handleMessage_failure_keeps_history_witness :
  let h := appendAll h0 "c" [msgA; msgB] in
  let message := userMsg "<@B> what's up" ["B"] in
  (handleMessage botFail h message).1 = h.
Proof.
  intros h message.
  rewrite (handleMessage_failure_keeps_history botFail h message
             "XAI API error: boom (code: 500)");
    [reflexivity | discriminate | reflexivity | reflexivity].
Defined.

End Dispatch.

(** ** The seeding path filters empty messages and cleans addressed text *)

Section Seeding.

Definition no_empty (h : ChatHistory) : Prop :=
  forall k, Forall (fun m => isEmptyMessage m = false) (Get h k).

Lemma Append_no_empty (h : ChatHistory) (cid : string) (m : ChatMessage) :
  no_empty h -> isEmptyMessage m = false -> no_empty (Append h cid m).
Proof.
  intros Hh Hm k. destruct (decide (cid = k)) as [<-|Hne].
  - rewrite Get_Append_eq. unfold trimTo.
    assert (Forall (fun m => isEmptyMessage m = false) (Get h cid ++ [m])).
    { apply Forall_app. split; [apply Hh | by constructor]. }
    case_match; [by apply Forall_drop | done].
  - rewrite Get_Append_ne by done. apply Hh.
Qed.

Lemma CreateMultimodalMessage_not_empty (role text : string) (imgs : list string)
    (username : string) :
  (String.eqb text "" = false \/ imgs <> []) ->
  isEmptyMessage (CreateMultimodalMessage role text imgs username) = false.
Proof.
  intros Hne. destruct imgs as [|img imgs].
  - destruct Hne as [Ht|]; [|done].
    unfold isEmptyMessage.
    change (messageText (CreateMultimodalMessage role text [] username)) with text.
    by rewrite Ht.
  - unfold isEmptyMessage, messageImages; simpl.
    destruct (bool_decide (text = "")); simpl;
      apply andb_false_r.
Qed.

Lemma seedOne_no_empty (bot cid : string) (messages : list DiscordMessage)
    (i : nat) (h : ChatHistory) :
  no_empty h -> no_empty (seedOne bot cid messages i h).
Proof.
  intros Hh. unfold seedOne.
  destruct (messages !! i) as [msg|]; [|done].
  repeat case_match; try done;
    repeat apply Append_no_empty; try done;
    try (apply CreateMultimodalMessage_not_empty;
         match goal with
         | H : (negb _ || negb _)%bool = true |- _ =>
             apply orb_true_iff in H as [H|H]; apply negb_true_iff in H;
             [left | right; by apply bool_decide_eq_false in H]; exact H
         end);
    match goal with
    | H : negb (?x =? "")%string = true
      |- isEmptyMessage (mkChatMessage _ (CString ?x) _) = false =>
        apply negb_true_iff in H; unfold isEmptyMessage, messageText;
        cbn [Content]; by rewrite H
    end.
Qed.

Lemma seedLoop_no_empty (bot cid : string) (messages : list DiscordMessage)
    (k : nat) (h : ChatHistory) :
  no_empty h -> no_empty (seedLoop bot cid messages k h).
Proof.
  revert h. induction k as [|k IH]; intros h Hh; [done|].
  simpl. apply IH, seedOne_no_empty, Hh.
Qed.

(** Seeding never stores a message with no text and no image part. *)
Lemma seedChannel_no_empty (bot cid : string) (fetched : list DiscordMessage)
    (h : ChatHistory) :
  no_empty h -> no_empty (seedChannel bot cid fetched h).
Proof. apply seedLoop_no_empty. Qed.

Definition seedMsg (author content : string) (mentions : list string) : DiscordMessage :=
  mkDiscordMessage author "ann" content 0 [] mentions.

(** Seeding on the newest-first list [bot reply; addressed message]: the
    stored user text is trimmed, without the mention and the trigger token,
    and lower-cased as a whole. *)
Example seedChannel_example :
  Get (seedChannel "B" "c"
         [seedMsg "B" "hi there" []; seedMsg "U" "<@B> @grok Hello" ["B"]] h0) "c"
  = [CreateTextMessage "user" "hello" "ann";
     mkChatMessage "assistant" (CString "hi there") ""].
Proof. reflexivity. Qed.

End Seeding.

(** ** Reading the reply *)

Lemma unmarshalIface_no_ContentItems (j : JSON) (items : list ContentItem) :
  unmarshalIface j <> GContentItems items.
Proof. destruct j; discriminate. Qed.

(** C9 (code bug): a reply whose first choice has string content returns
    that string, but a reply whose content is an array of typed parts (for
    instance [[{"type": "text", "text": "hi"}]]) is an error: the decoder
    stores a [[]interface{}], never the [[]ContentItem] the type switch
    tests for. *)
Theorem replyOfChoices_parts_rejected (s : string) (parts rest : list JSON) :
  replyOfChoices (JString s :: rest) = CompletionOk s /\
  replyOfChoices (JArray parts :: rest) =
    CompletionErr "unexpected content type in response" /\
  replyOfChoices
    [JArray [JObject [("type", JString "text"); ("text", JString "hi")]]] =
    CompletionErr "unexpected content type in response".
Proof. repeat split. Qed.

(** The branch the type switch meant for parts: the text parts, joined in
    order. *)
Example extractContent_items_example :
  extractContent (GContentItems [mkContentItem "text" "a" None;
                                 mkContentItem "image_url" "" (Some "u");
                                 mkContentItem "text" "b" None])
  = CompletionOk "ab".
Proof. reflexivity. Qed.

(** ** Copies and shared arrays *)

Module SliceProps.
Import Slices.

Lemma readSlice_agree {A} (heap heap' : gmap loc (list A)) (s : SliceHdr) :
  heap' !! arr s = heap !! arr s -> readSlice heap' s = readSlice heap s.
Proof. intros E. unfold readSlice. by rewrite E. Qed.

Lemma allocCopy_fresh {A} (heap : gmap loc (list A)) (xs : list A) (p : loc) :
  is_Some (heap !! p) -> (allocCopy heap xs).1 !! p = heap !! p.
Proof.
  intros Hp. unfold allocCopy; simpl. apply lookup_insert_ne.
  intros <-. apply (is_fresh (dom heap)). by apply elem_of_dom.
Qed.

Lemma readSlice_allocCopy {A} (heap : gmap loc (list A)) (xs : list A) :
  readSlice (allocCopy heap xs).1 (allocCopy heap xs).2 = xs.
Proof.
  unfold allocCopy, readSlice; simpl. rewrite lookup_insert_eq. simpl.
  by apply take_ge.
Qed.

Lemma setIndices_frame {A} (heap heap' : gmap loc (list A)) (s : SliceHdr)
    (writes : list (nat * A)) (p : loc) :
  setIndices heap s writes = Some heap' -> p <> arr s -> heap' !! p = heap !! p.
Proof.
  revert heap. induction writes as [|[i v] writes IH]; intros heap Hw Hp; simpl in Hw.
  - by injection Hw as <-.
  - unfold setIndex in Hw.
    destruct (decide (i < len s)%nat); [|done].
    destruct (heap !! arr s); [|done].
    rewrite (IH _ Hw Hp). by apply lookup_insert_ne.
Qed.

Lemma Get_eq (st : Store) (cid : string) :
  Get st cid =
  (mkStore (allocCopy (msgHeap st) (stored st cid)).1 (table st),
   (allocCopy (msgHeap st) (stored st cid)).2).
Proof. unfold Get. by destruct (allocCopy _ _). Qed.

Lemma Get_wf (st : Store) (cid : string) :
  store_wf st -> store_wf (Get st cid).1.
Proof.
  intros Hwf k s Hk. rewrite Get_eq in *; cbn [msgHeap table fst snd] in *.
  rewrite allocCopy_fresh; eauto.
Qed.

(** C7: [Get] returns a slice showing the stored messages (none for a key
    never appended to); any writes through that slice leave what the store
    holds, for this key and every other, as it was. *)
Theorem Get_returns_copy (st : Store) (cid : string)
    (writes : list (nat * ChatMessage)) (st2 : Store) :
  store_wf st ->
  readSlice (msgHeap (Get st cid).1) (Get st cid).2 = stored st cid /\
  (table st !! cid = None -> readSlice (msgHeap (Get st cid).1) (Get st cid).2 = []) /\
  (writeOut (Get st cid).1 (Get st cid).2 writes = Some st2 ->
   forall k, stored st2 k = stored st k).
Proof.
  intros Hwf. split; [|split].
  - rewrite Get_eq; cbn [msgHeap fst snd]. apply readSlice_allocCopy.
  - intros Hnone. rewrite Get_eq; cbn [msgHeap fst snd]. rewrite readSlice_allocCopy.
    unfold stored. by rewrite Hnone.
  - intros Hw k. rewrite Get_eq in Hw. unfold writeOut in Hw.
    cbn [msgHeap table fst snd] in Hw.
    destruct (setIndices _ _ writes) as [heap'|] eqn:Hs; [|done].
    injection Hw as <-. unfold stored at 1; cbn [msgHeap table fst snd].
    destruct (table st !! k) as [s|] eqn:Hk; [|by unfold stored; rewrite Hk].
    unfold stored; rewrite Hk. apply readSlice_agree.
    assert (Hsome : is_Some (msgHeap st !! arr s)) by (eapply Hwf; eauto).
    rewrite (setIndices_frame _ _ _ _ _ Hs).
    + by apply allocCopy_fresh.
    + unfold allocCopy; simpl. intros Heq. rewrite Heq in Hsome.
      apply (is_fresh (dom (msgHeap st))). by apply elem_of_dom.
Qed.

Definition stDemo : Store :=
  mkStore {[1%positive := [msgA; msgB]]} {["c" := mkSliceHdr 1%positive 0%nat 2%nat]}.

Lemma stDemo_wf : store_wf stDemo.
Proof.
  intros k s Hk. simpl in Hk.
  apply lookup_singleton_Some in Hk as [_ <-]. simpl.
  rewrite lookup_singleton_eq. by eexists.
Qed.

Lemma Get_returns_copy_witness :
  writeOut (Get stDemo "c").1 (Get stDemo "c").2 [(0%nat, msgD)]
    = Some (mkStore (<[fresh (dom (msgHeap stDemo)) := [msgD; msgB]]>
                       (<[fresh (dom (msgHeap stDemo)) := [msgA; msgB]]>
                          (msgHeap stDemo)))
              (table stDemo)) /\
  stored (mkStore (<[fresh (dom (msgHeap stDemo)) := [msgD; msgB]]>
                     (<[fresh (dom (msgHeap stDemo)) := [msgA; msgB]]>
                        (msgHeap stDemo)))
            (table stDemo)) "c" = [msgA; msgB].
Proof.
  split; [reflexivity|].
  apply (Get_returns_copy stDemo "c" [(0%nat, msgD)]); [exact stDemo_wf | reflexivity].
Defined.

(** *** Formatting for transmission *)

Definition extends (items items' : gmap loc (list ContentItem)) : Prop :=
  forall p v, items !! p = Some v -> items' !! p = Some v.

Lemma formatMessage_eq (items : gmap loc (list ContentItem)) (msg : HMessage) :
  formatMessage items msg =
  if (negb (String.eqb (hUsername msg) "") && String.eqb (hRole msg) "user")%bool then
    match hContent msg with
    | HString content =>
        (items, mkHMessage (hRole msg) (HString (tag (hUsername msg) content))
                  (hUsername msg))
    | HItems content =>
        let xs := map (tagItem (hUsername msg)) (readSlice items content) in
        ((allocCopy items xs).1,
         mkHMessage (hRole msg) (HItems (allocCopy items xs).2) (hUsername msg))
    end
  else (items, msg).
Proof.
  unfold formatMessage. destruct (_ && _)%bool; [|done].
  destruct (hContent msg); [done|]. by destruct (allocCopy _ _).
Qed.

Lemma formatMessages_cons (items : gmap loc (list ContentItem)) (m : HMessage)
    (ms : list HMessage) :
  formatMessages items (m :: ms) =
  ((formatMessages (formatMessage items m).1 ms).1,
   (formatMessage items m).2 :: (formatMessages (formatMessage items m).1 ms).2).
Proof. simpl. destruct (formatMessage items m). by destruct (formatMessages _ ms). Qed.

Lemma formatMessage_extends (items : gmap loc (list ContentItem)) (m : HMessage) :
  extends items (formatMessage items m).1.
Proof.
  intros p v Hp. rewrite formatMessage_eq.
  destruct (_ && _)%bool; [|done]. destruct (hContent m); [done|].
  cbn [fst]. rewrite allocCopy_fresh; [done | by eexists].
Qed.

Lemma hm_wf_extends (items items' : gmap loc (list ContentItem)) (m : HMessage) :
  extends items items' -> hm_wf items m -> hm_wf items' m.
Proof.
  unfold hm_wf. intros Hext Hm. destruct (hContent m); [done|].
  destruct Hm as [v Hv]. eexists. by apply Hext.
Qed.

Lemma derefMessage_extends (items items' : gmap loc (list ContentItem)) (m : HMessage) :
  extends items items' -> hm_wf items m -> derefMessage items' m = derefMessage items m.
Proof.
  unfold hm_wf, derefMessage. intros Hext Hm. destruct (hContent m) as [|s]; [done|].
  destruct Hm as [v Hv]. do 2 f_equal. apply readSlice_agree.
  rewrite Hv. by apply Hext.
Qed.

Lemma map_derefMessage_extends (items items' : gmap loc (list ContentItem))
    (ms : list HMessage) :
  extends items items' -> items_wf items ms ->
  map (derefMessage items') ms = map (derefMessage items) ms.
Proof.
  intros Hext Hwf. induction Hwf as [|m ms Hm Hms IH]; [done|].
  simpl. by rewrite IH, (derefMessage_extends items items').
Qed.

Lemma formatMessage_wf (items : gmap loc (list ContentItem)) (m : HMessage) :
  hm_wf items m -> hm_wf (formatMessage items m).1 (formatMessage items m).2.
Proof.
  intros Hm. rewrite formatMessage_eq.
  destruct (_ && _)%bool; [|done]. unfold hm_wf in *; simpl.
  destruct (hContent m); [done|]. simpl.
  unfold allocCopy; simpl. rewrite lookup_insert_eq. by eexists.
Qed.

Lemma formatMessage_deref (items : gmap loc (list ContentItem)) (m : HMessage) :
  derefMessage (formatMessage items m).1 (formatMessage items m).2 =
  tagMessage (derefMessage items m).
Proof.
  rewrite formatMessage_eq. unfold tagMessage, derefMessage. cbn [Role Content Username].
  destruct (negb (hUsername m =? "")%string && (hRole m =? "user")%string)%bool;
    cbn [fst snd hRole hContent hUsername]; [|done].
  destruct (hContent m); cbn [fst snd hRole hContent hUsername]; [done|].
  by rewrite readSlice_allocCopy.
Qed.

Lemma formatMessages_spec (items : gmap loc (list ContentItem)) (ms : list HMessage) :
  items_wf items ms ->
  extends items (formatMessages items ms).1 /\
  map (derefMessage (formatMessages items ms).1) (formatMessages items ms).2 =
    map tagMessage (map (derefMessage items) ms) /\
  items_wf (formatMessages items ms).1 (formatMessages items ms).2.
Proof.
  revert items. induction ms as [|m ms IH]; intros items Hwf.
  - simpl. split; [by intros p v|]. split; constructor.
  - apply Forall_cons in Hwf as [Hm Hms].
    rewrite formatMessages_cons. cbn [fst snd].
    set (items1 := (formatMessage items m).1).
    set (fm := (formatMessage items m).2).
    assert (Hext1 : extends items items1) by apply formatMessage_extends.
    assert (Hfm : hm_wf items1 fm) by by apply formatMessage_wf.
    destruct (IH items1) as (Hext2 & Hmap & Hwf2).
    { unfold items_wf. eapply Forall_impl; [exact Hms|].
      intros x. by apply hm_wf_extends. }
    split; [|split].
    + intros p v Hp. by apply Hext2, Hext1.
    + simpl. rewrite Hmap, (map_derefMessage_extends items items1) by done.
      f_equal. rewrite (derefMessage_extends items1) by done.
      apply formatMessage_deref.
    + constructor; [|done]. by apply (hm_wf_extends items1).
Qed.

(** C8: formatting allocates new item arrays and writes only there: every
    array that existed (the stored messages' parts among them) is
    unchanged, the input messages read as before, and the outbound ones
    are the inputs with [[username]: ] put once before the text of each
    user message with a username. Formatting the same messages again gives
    the same outbound messages, not a doubled prefix. *)
Theorem format_leaves_input (items : gmap loc (list ContentItem)) (ms : list HMessage) :
  items_wf items ms ->
  let items1 := (formatMessages items ms).1 in
  (forall p v, items !! p = Some v -> items1 !! p = Some v) /\
  map (derefMessage items1) ms = map (derefMessage items) ms /\
  map (derefMessage items1) (formatMessages items ms).2 =
    map tagMessage (map (derefMessage items) ms) /\
  map (derefMessage (formatMessages items1 ms).1) (formatMessages items1 ms).2 =
    map tagMessage (map (derefMessage items) ms).
Proof.
  intros Hwf items1.
  destruct (formatMessages_spec items ms Hwf) as (Hext & Hmap & _).
  assert (Hwf1 : items_wf items1 ms).
  { eapply Forall_impl; [exact Hwf|]. intros x. by apply hm_wf_extends. }
  assert (Hsame : map (derefMessage items1) ms = map (derefMessage items) ms)
    by by apply map_derefMessage_extends.
  split; [exact Hext|]. split; [exact Hsame|]. split; [exact Hmap|].
  destruct (formatMessages_spec items1 ms Hwf1) as (_ & Hmap1 & _).
  by rewrite Hmap1, Hsame.
Qed.

Definition itemsDemo : gmap loc (list ContentItem) :=
  {[1%positive := [mkContentItem "text" "hello" None;
                   mkContentItem "image_url" "" (Some "data:image/png;base64,AA==")]]}.

Definition msgsDemo : list HMessage :=
  [mkHMessage "system" (HString "sys") "";
   mkHMessage "user" (HItems (mkSliceHdr 1%positive 0%nat 2%nat)) "ann";
   mkHMessage "user" (HString "hi") "bob"].

Example format_demo :
  map (derefMessage (formatMessages itemsDemo msgsDemo).1) (formatMessages itemsDemo msgsDemo).2
  = [mkChatMessage "system" (CString "sys") "";
     mkChatMessage "user" (CItems [mkContentItem "text" "[ann]: hello" None;
                                   mkContentItem "image_url" "" (Some "data:image/png;base64,AA==")])
       "ann";
     mkChatMessage "user" (CString "[bob]: hi") "bob"].
Proof. reflexivity. Qed.

Lemma format_leaves_input_witness :
  let items1 := (formatMessages itemsDemo msgsDemo).1 in
  map (derefMessage (formatMessages items1 msgsDemo).1) (formatMessages items1 msgsDemo).2 =
    map tagMessage (map (derefMessage itemsDemo) msgsDemo).
Proof.
  apply (format_leaves_input itemsDemo msgsDemo).
  repeat constructor. unfold hm_wf; simpl. by eexists.
Defined.

End SliceProps.

(* ================================================================== *)
(** * Further properties of the history, the dispatcher and seeding *)

Section HistoryInvariant.

(** The invariant every history the code builds satisfies: the capacity
    is at least 1 and no key holds more messages than it. *)
Definition hist_wf (h : ChatHistory) : Prop :=
  1 <= maxMessages h /\
  forall k, (length (Get h k) <= Z.to_nat (maxMessages h))%nat.

Lemma lastn_lastn {A} (a b : nat) (l : list A) :
  lastn a (lastn b l) = lastn (Nat.min a b) l.
Proof.
  unfold lastn. rewrite drop_drop, length_drop. f_equal. lia.
Qed.

Lemma Get_SetMax (h : ChatHistory) (k : string) (m : Z) :
  Get (SetMax h m) k = lastn (Z.to_nat (Z.max m 1)) (Get h k).
Proof.
  unfold Get, SetMax. cbn [channelToMessages]. rewrite lookup_fmap.
  rewrite SetMax_capacity.
  destruct (channelToMessages h !! k) as [ms|]; simpl.
  - apply trimTo_lastn. lia.
  - done.
Qed.

Lemma Append_hist_wf (h : ChatHistory) (k : string) (m : ChatMessage) :
  hist_wf h -> hist_wf (Append h k m).
Proof.
  intros [Hmax Hlen]. split; [done|]. intros k'.
  rewrite maxMessages_Append.
  destruct (decide (k = k')) as [<-|Hne].
  - rewrite Get_Append_eq, trimTo_lastn, length_lastn by lia. lia.
  - rewrite Get_Append_ne by done. apply Hlen.
Qed.

Lemma seedOne_hist_wf (bot cid : string) (messages : list DiscordMessage)
    (i : nat) (h : ChatHistory) :
  hist_wf h -> hist_wf (seedOne bot cid messages i h).
Proof.
  intros Hh. unfold seedOne.
  destruct (messages !! i) as [msg|]; [|done].
  repeat case_match; try done; repeat apply Append_hist_wf; done.
Qed.

Lemma maxMessages_seedOne (bot cid : string) (messages : list DiscordMessage)
    (i : nat) (h : ChatHistory) :
  maxMessages (seedOne bot cid messages i h) = maxMessages h.
Proof.
  unfold seedOne.
  destruct (messages !! i) as [msg|]; [|done].
  repeat case_match; done.
Qed.

Lemma seedOne_frame (bot cid : string) (messages : list DiscordMessage)
    (i : nat) (h : ChatHistory) (k : string) :
  cid <> k ->
  Get (seedOne bot cid messages i h) k = Get h k.
Proof.
  intros Hne. unfold seedOne.
  destruct (messages !! i) as [msg|]; [|done].
  repeat case_match; try done;
    rewrite ?maxMessages_Append, ?Get_Append_ne by done; done.
Qed.

Lemma seedLoop_props (bot cid : string) (messages : list DiscordMessage)
    (n : nat) (h : ChatHistory) :
  hist_wf h -> no_empty h ->
  hist_wf (seedLoop bot cid messages n h) /\
  no_empty (seedLoop bot cid messages n h) /\
  maxMessages (seedLoop bot cid messages n h) = maxMessages h /\
  (forall k, cid <> k -> Get (seedLoop bot cid messages n h) k = Get h k).
Proof.
  revert h. induction n as [|n IH]; intros h Hwf Hne; [done|].
  simpl. destruct (IH (seedOne bot cid messages n h)) as (H1 & H2 & H3 & H4).
  - by apply seedOne_hist_wf.
  - by apply seedOne_no_empty.
  - split; [done|]. split; [done|]. split.
    + rewrite H3. apply maxMessages_seedOne.
    + intros k Hk. rewrite H4 by done. by apply seedOne_frame.
Qed.

Lemma NewChatHistory_hist_wf (n : Z) : hist_wf (NewChatHistory n).
Proof.
  split.
  - unfold NewChatHistory. cbn [maxMessages]. rewrite SetMax_capacity. lia.
  - intros k. unfold Get, NewChatHistory. cbn [channelToMessages].
    rewrite lookup_empty. simpl. lia.
Qed.

End HistoryInvariant.

(** [NewChatHistory] and [SetMax] establish the history invariant from any
    argument and any starting history: capacity [max(n, 1)], and no key
    longer than it. *)
Theorem NewChatHistory_SetMax_wf (n : Z) (h : ChatHistory) :
  maxMessages (NewChatHistory n) = Z.max n 1 /\ hist_wf (NewChatHistory n) /\
  maxMessages (SetMax h n) = Z.max n 1 /\ hist_wf (SetMax h n).
Proof.
  split; [apply SetMax_capacity|]. split; [apply NewChatHistory_hist_wf|].
  assert (Hc : maxMessages (SetMax h n) = Z.max n 1) by apply SetMax_capacity.
  split; [done|]. split; [lia|].
  intros k. rewrite Hc, Get_SetMax, length_lastn. lia.
Qed.

(** [Append] keeps the invariant, stores the last [max] messages of the
    key's history followed by the new one, and the new message is always
    the key's newest entry. *)
Theorem Append_wf_newest (h : ChatHistory) (k : string) (m : ChatMessage) :
  hist_wf h ->
  hist_wf (Append h k m) /\
  Get (Append h k m) k = lastn (Z.to_nat (maxMessages h)) (Get h k ++ [m]) /\
  last (Get (Append h k m)  k) = Some m.
Proof.
  intros Hwf. destruct Hwf as [Hmax Hlen] eqn:E.
  split; [apply Append_hist_wf; exact Hwf|].
  assert (HG : Get (Append h k m) k = lastn (Z.to_nat (maxMessages h)) (Get h k ++ [m])).
  { rewrite Get_Append_eq. apply trimTo_lastn. lia. }
  split; [done|]. rewrite HG. unfold lastn.
  rewrite length_app. simpl.
  rewrite drop_app_le by lia. rewrite last_app. done.
Qed.

Lemma Append_wf_newest_witness :
  hist_wf (appendAll (NewChatHistory 2) "c" [msgA; msgB]) /\
  last (Get (Append (appendAll (NewChatHistory 2) "c" [msgA; msgB]) "c" msgC) "c")
    = Some msgC.
Proof.
  assert (Hwf : hist_wf (appendAll (NewChatHistory 2) "c" [msgA; msgB])).
  { split; [vm_compute; discriminate|]. intros k. unfold Get. simpl.
    destruct (decide (k = "c")) as [->|Hne].
    - rewrite lookup_insert_eq. vm_compute. lia.
    - rewrite lookup_insert_ne by congruence. rewrite lookup_insert_ne by congruence.
      rewrite lookup_empty. vm_compute. lia. }
  split; [exact Hwf|].
  apply (Append_wf_newest (appendAll (NewChatHistory 2) "c" [msgA; msgB]) "c" msgC Hwf).
Defined.

(** Two [SetMax] calls keep, on every key, what one call with the smaller
    of the two effective capacities keeps; the capacity is the last one
    set. *)
Theorem SetMax_SetMax (h : ChatHistory) (n m : Z) :
  channelToMessages (SetMax (SetMax h n) m) =
    channelToMessages (SetMax h (Z.min (Z.max n 1) (Z.max m 1))) /\
  maxMessages (SetMax (SetMax h n) m) = Z.max m 1.
Proof.
  split; [|apply SetMax_capacity].
  apply map_eq. intros k. unfold SetMax. cbn [channelToMessages maxMessages].
  rewrite !lookup_fmap, !SetMax_capacity.
  destruct (channelToMessages h !! k) as [ms|]; simpl; [|done].
  f_equal. rewrite !trimTo_lastn by lia. rewrite lastn_lastn. f_equal. lia.
Qed.

(** On every path, [handleMessage] leaves the capacity and every other
    channel's history as they were, and keeps the history invariant. *)
Theorem handleMessage_frame_wf (d : Dispatcher) (h : ChatHistory)
    (message : MessageCreate) :
  hist_wf h ->
  hist_wf (handleMessage d h message).1 /\
  maxMessages (handleMessage d h message).1 = maxMessages h /\
  (forall k, k <> ChannelID message -> Get (handleMessage d h message).1 k = Get h k).
Proof.
  intros Hwf. unfold handleMessage.
  repeat case_match; simpl;
    (split; [|split]); try done;
    try (repeat apply Append_hist_wf; done);
    try (intros k Hk; rewrite ?Get_Append_ne by congruence; done).
Qed.

Lemma handleMessage_frame_wf_witness :
  Get (handleMessage botOk h0 (userMsg "<@B> hello" ["B"])).1 "other" = Get h0 "other".
Proof.
  apply (handleMessage_frame_wf botOk h0 (userMsg "<@B> hello" ["B"])).
  - apply NewChatHistory_hist_wf.
  - discriminate.
Defined.

(** When the bot is mentioned and the completion call answers, the
    handler stores the cleaned user message and the reply as the channel's
    two newest entries (after the last [max] of the earlier ones), shows
    typing, makes one completion call and sends the reply. *)
Theorem handleMessage_success (d : Dispatcher) (h : ChatHistory)
    (message : MessageCreate) (response : string) :
  hist_wf h ->
  AuthorID message <> botID d ->
  doesMessageMention (Mentions message) (botID d) = true ->
  let content :=
    ReplaceAllEmpty (TrimSpace (MessageContent message)) (mentionMarkup (botID d)) in
  let user := CreateMultimodalMessage "user" content (imageURLs message)
                (AuthorUsername message) in
  complete d (buildRequest d h message content) = CompletionOk response ->
  (handleMessage d h message).2 =
    [ETyping (ChannelID message); ECompletion (buildRequest d h message content);
     ESendReply (ChannelID message) response] /\
  Get (handleMessage d h message).1 (ChannelID message) =
    lastn (Z.to_nat (maxMessages h))
      (Get h (ChannelID message) ++ [user; CreateTextMessage "assistant" response ""]).
Proof.
  intros Hwf Hauthor Hment content user Hok. unfold handleMessage.
  apply String.eqb_neq in Hauthor. rewrite Hauthor, Hment. simpl.
  fold content. rewrite Hok. simpl. split; [done|].
  destruct Hwf as [Hmax _].
  rewrite Get_Append_eq, maxMessages_Append, Get_Append_eq, !trimTo_lastn by lia.
  rewrite lastn_lastn_app, <- app_assoc. done.
Qed.

Lemma handleMessage_success_witness :
  Get (handleMessage botOk h0 (userMsg "<@B> hello" ["B"])).1 "c" =
    lastn 10 (Get h0 "c" ++ [CreateTextMessage "user" " hello" "ann";
                            CreateTextMessage "assistant" "hi" ""]).
Proof.
  apply (handleMessage_success botOk h0 (userMsg "<@B> hello" ["B"]) "hi").
  - apply NewChatHistory_hist_wf.
  - discriminate.
  - reflexivity.
  - reflexivity.
Defined.

Lemma handleMessage_calls_completion_iff_mention_witness :
  (exists req, ECompletion req ∈ (handleMessage botOk h0 (userMsg "<@B> hi" ["B"])).2).
Proof.
  apply (handleMessage_calls_completion_iff_mention botOk h0 (userMsg "<@B> hi" ["B"])).
  - discriminate.
  - reflexivity.
Defined.

(** Seeding one channel keeps the history invariant, stores no message
    without text and image, and leaves the capacity and every other
    channel's history as they were. *)
Theorem seedChannel_wf_frame (bot cid : string) (fetched : list DiscordMessage)
    (h : ChatHistory) :
  hist_wf h -> no_empty h ->
  hist_wf (seedChannel bot cid fetched h) /\
  no_empty (seedChannel bot cid fetched h) /\
  maxMessages (seedChannel bot cid fetched h) = maxMessages h /\
  (forall k, cid <> k -> Get (seedChannel bot cid fetched h) k = Get h k).
Proof. intros. by apply seedLoop_props. Qed.

Lemma seedChannel_wf_frame_witness :
  Get (seedChannel "B" "c" [seedMsg "B" "hi there" []; seedMsg "U" "<@B> Hello" ["B"]] h0)
    "d" = Get h0 "d".
Proof.
  apply (seedChannel_wf_frame "B" "c"
           [seedMsg "B" "hi there" []; seedMsg "U" "<@B> Hello" ["B"]] h0).
  - apply NewChatHistory_hist_wf.
  - intros k. unfold Get. simpl. rewrite lookup_empty. constructor.
  - discriminate.
Defined.

(** ** The response scan of the seeding path *)

Section ResponseScan.

Variable bot : string.
Variable messages : list DiscordMessage.

Lemma scanResponse_spec (s j : nat) (r : DiscordMessage) :
  (j < length messages)%nat ->
  scanResponse bot messages s j = Some r <->
  exists j0, (j0 <= j)%nat /\ (j < j0 + s)%nat /\ messages !! j0 = Some r /\
    mAuthorID r = bot /\
    forall j' m', (j0 < j' <= j)%nat -> messages !! j' = Some m' -> mAuthorID m' <> bot.
Proof.
  revert j. induction s as [|s IH]; intros j Hj.
  - simpl. split; [discriminate|]. intros (j0 & ? & ? & _). lia.
  - simpl. destruct (lookup_lt_is_Some_2 messages j Hj) as [m Hm]. rewrite Hm.
    destruct (String.eqb_spec (mAuthorID m) bot) as [Hb|Hb].
    + split.
      * intros [= <-]. exists j. split_and!; [lia | lia | done | done |].
        intros j' m' ? _. lia.
      * intros (j0 & Hle & _ & Hj0 & Hbot & Hfree).
        destruct (decide (j0 = j)) as [->|Hne]; [congruence|].
        exfalso. apply (Hfree j m); [lia | done | done].
    + destruct j as [|j].
      * split; [discriminate|]. intros (j0 & Hle & _ & Hj0 & Hbot & _).
        assert (j0 = 0%nat) as -> by lia. congruence.
      * rewrite IH by lia. split.
        -- intros (j0 & Hle & Hlt & Hj0 & Hbot & Hfree).
           exists j0. split_and!; [lia | lia | done | done |].
           intros j' m' Hj' Hm'. destruct (decide (j' = S j)) as [->|Hne].
           ++ congruence.
           ++ apply (Hfree j' m'); [lia | done].
        -- intros (j0 & Hle & Hlt & Hj0 & Hbot & Hfree).
           destruct (decide (j0 = S j)) as [->|Hne]; [congruence|].
           exists j0. split_and!; [lia | lia | done | done |].
           intros j' m' Hj' Hm'. apply (Hfree j' m'); [lia | done].
Qed.

End ResponseScan.

(** For an index [i] within the list (oldest last), the reply the seeding
    path pairs with the message at [i] is the nearest message of the bot
    among the up to four messages before [i]: found exactly when one of
    them is the bot's, and then no message between it and [i] is. *)
Theorem findResponse_spec (bot : string) (messages : list DiscordMessage)
    (i : nat) (r : DiscordMessage) :
  (i <= length messages)%nat ->
  findResponse bot messages i = Some r <->
  exists j, (j < i)%nat /\ (i <= j + 4)%nat /\ messages !! j = Some r /\
    mAuthorID r = bot /\
    forall j' m', (j < j' < i)%nat -> messages !! j' = Some m' -> mAuthorID m' <> bot.
Proof.
  intros Hi. destruct i as [|j].
  - split; [discriminate|]. intros (j & ? & _). lia.
  - change (findResponse bot messages (S j)) with (scanResponse bot messages 4 j).
    rewrite scanResponse_spec by lia. split.
    + intros (j0 & Hle & Hlt & Hj0 & Hbot & Hfree).
      exists j0. split_and!; [lia | lia | done | done |].
      intros j' m' ? ?. apply (Hfree j' m'); [lia | done].
    + intros (j0 & Hlt & Hle & Hj0 & Hbot & Hfree).
      exists j0. split_and!; [lia | lia | done | done |].
      intros j' m' ? ?. apply (Hfree j' m'); [lia | done].
Qed.

Lemma findResponse_spec_witness :
  findResponse "B"
    [seedMsg "B" "old reply" []; seedMsg "U" "x" []; seedMsg "B" "reply" [];
     seedMsg "V" "y" []; seedMsg "U" "<@B> q" ["B"]] 4
  = Some (seedMsg "B" "reply" []).
Proof.
  apply (findResponse_spec "B"
    [seedMsg "B" "old reply" []; seedMsg "U" "x" []; seedMsg "B" "reply" [];
     seedMsg "V" "y" []; seedMsg "U" "<@B> q" ["B"]] 4 (seedMsg "B" "reply" []));
    [simpl; lia|].
  exists 2%nat. split_and!; [lia | lia | reflexivity | reflexivity |].
  intros j' m' Hj' Hm'. assert (j' = 3%nat) as -> by lia.
  injection Hm' as <-. discriminate.
Defined.

(** ** Message construction *)

Lemma filter_text_images (urls : list string) :
  filter isTextItem (map (fun u => mkContentItem "image_url" "" (Some u)) urls) = [] /\
  filter isImageItem (map (fun u => mkContentItem "image_url" "" (Some u)) urls) =
    map (fun u => mkContentItem "image_url" "" (Some u)) urls.
Proof.
  induction urls as [|u urls [IH1 IH2]]; [done|]. split.
  - cbn [map]. rewrite filter_cons_False; [done|]. by compute.
  - cbn [map]. rewrite filter_cons_True; [by rewrite IH2|]. by compute.
Qed.

Lemma CreateMultimodalMessage_parts (role text : string) (urls : list string)
    (username : string) :
  messageText (CreateMultimodalMessage role text urls username) = text /\
  messageImages (CreateMultimodalMessage role text urls username) =
    map (fun u => mkContentItem "image_url" "" (Some u)) urls.
Proof.
  destruct urls as [|u urls]; [done|].
  destruct (filter_text_images (u :: urls)) as [H1 H2].
  unfold CreateMultimodalMessage, messageText, messageImages. cbn [Content].
  case_bool_decide as Ht.
  - rewrite !app_nil_l, H1, H2. by subst.
  - rewrite !filter_app, H1, H2.
    rewrite filter_cons_True by (by compute). rewrite filter_cons_False by (by compute).
    rewrite filter_nil, !app_nil_l, app_nil_r. simpl. done.
Qed.

(** [CreateMultimodalMessage] keeps its inputs: the role, the username,
    the text (no text part when it is empty) and the image URLs in order,
    one image part each. *)
Theorem CreateMultimodalMessage_roundtrip (role text : string) (urls : list string)
    (username : string) :
  Role (CreateMultimodalMessage role text urls username) = role /\
  Username (CreateMultimodalMessage role text urls username) = username /\
  messageText (CreateMultimodalMessage role text urls username) = text /\
  map ImageURL (messageImages (CreateMultimodalMessage role text urls username)) =
    map Some urls.
Proof.
  destruct (CreateMultimodalMessage_parts role text urls username) as [Ht Hi].
  split; [by destruct urls|]. split; [by destruct urls|]. split; [done|].
  rewrite Hi, map_map. done.
Qed.

(** [CreateImageOnlyMessage] carries no text; with no URL it is a message
    with no text and no image part. *)
Theorem CreateImageOnlyMessage_empty_iff (role : string) (urls : list string)
    (username : string) :
  messageText (CreateImageOnlyMessage role urls username) = "" /\
  isEmptyMessage (CreateImageOnlyMessage role urls username) = bool_decide (urls = []).
Proof.
  unfold CreateImageOnlyMessage.
  destruct (CreateMultimodalMessage_parts role "" urls username) as [Ht Hi].
  split; [done|]. unfold isEmptyMessage. rewrite Ht, Hi. simpl.
  destruct urls; simpl; done.
Qed.

(** ** Downloading and encoding images *)

(** [downloadImage] succeeds exactly for a non-empty URL whose request
    answers 2xx with a readable body of at most 20 MiB; it returns that
    body and the response's content type, ["image/jpeg"] when it is
    absent, so never an empty one. *)
Theorem downloadImage_ok_iff (url : string) (fetch : option HttpResponse)
    (data : list Byte.byte) (ct : string) :
  (downloadImage url fetch = inl (data, ct) <->
   url <> "" /\
   exists resp, fetch = Some resp /\ 200 <= StatusCode resp < 300 /\
     Body resp = Some data /\ Z.of_nat (length data) <= 20 * 1024 * 1024 /\
     ct = (if String.eqb (ContentTypeHeader resp) "" then "image/jpeg"
           else ContentTypeHeader resp)) /\
  (downloadImage url fetch = inl (data, ct) -> ct <> "").
Proof.
  assert (Hiff : downloadImage url fetch = inl (data, ct) <->
   url <> "" /\
   exists resp, fetch = Some resp /\ 200 <= StatusCode resp < 300 /\
     Body resp = Some data /\ Z.of_nat (length data) <= 20 * 1024 * 1024 /\
     ct = (if String.eqb (ContentTypeHeader resp) "" then "image/jpeg"
           else ContentTypeHeader resp)).
  { unfold downloadImage, maxImageSize.
    destruct (String.eqb_spec url "") as [Hu|Hu].
    { split; [discriminate | by intros [? _]]. }
    destruct fetch as [resp|].
    2:{ split; [discriminate|]. intros (_ & resp & ? & _). discriminate. }
    destruct ((StatusCode resp <? 200) || (StatusCode resp >=? 300))%bool eqn:Hs.
    { split; [discriminate|]. intros (_ & resp' & [= <-] & Hst & _).
      apply orb_true_iff in Hs as [Hs|Hs]; [apply Z.ltb_lt in Hs | apply Z.geb_le in Hs]; lia. }
    apply orb_false_iff in Hs as [Hs1 Hs2].
    apply Z.ltb_ge in Hs1. rewrite Z.geb_leb, Z.leb_gt in Hs2.
    destruct (Body resp) as [body|] eqn:Hb.
    2:{ split; [discriminate|]. intros (_ & resp' & [= <-] & _ & Hb' & _). congruence. }
    destruct (Z.of_nat (length body) >? 20 * 1024 * 1024) eqn:Hz.
    { split; [discriminate|]. intros (_ & resp' & [= <-] & _ & Hb' & Hlen & _).
      rewrite Hb in Hb'. injection Hb' as ->. apply Z.gtb_lt in Hz. lia. }
    rewrite Z.gtb_ltb, Z.ltb_ge in Hz.
    split.
    - intros [= -> <-]. split; [done|]. exists resp. split_and!; try done; lia.
    - intros (_ & resp' & [= <-] & _ & Hb' & _ & ->). rewrite Hb in Hb'.
      by injection Hb' as ->. }
  split; [exact Hiff|].
  intros Hok. apply Hiff in Hok as (_ & resp & _ & _ & _ & _ & ->).
  destruct (String.eqb_spec (ContentTypeHeader resp) "") as [_|Hne]; [discriminate | exact Hne].
Qed.

Lemma string_app_cons (c : ascii) (s t : string) :
  (String c s ++ t)%string = String c (s ++ t).
Proof. reflexivity. Qed.

Lemma string_length_append (s t : string) :
  String.length (s ++ t) = (String.length s + String.length t)%nat.
Proof.
  induction s as [|c s IH]; [done|]. rewrite string_app_cons. simpl. by rewrite IH.
Qed.

Lemma string_append_assoc (s t u : string) :
  ((s ++ t) ++ u)%string = (s ++ (t ++ u))%string.
Proof.
  induction s as [|c s IH]; [done|]. rewrite !string_app_cons. by rewrite IH.
Qed.

Lemma prefix_append (s t : string) : String.prefix s (s ++ t) = true.
Proof.
  induction s as [|c s IH]; [by destruct t|]. rewrite string_app_cons. simpl.
  destruct (ascii_dec c c); [done | congruence].
Qed.

Lemma EncodeToString_length_aux (n : nat) (bs : list Byte.byte) :
  (length bs <= n)%nat ->
  String.length (EncodeToString bs) = (4 * ((length bs + 2) / 3))%nat.
Proof.
  revert bs. induction n as [|n IH]; intros bs Hn.
  - destruct bs; [done | simpl in Hn; lia].
  - destruct bs as [|b1 [|b2 [|b3 rest]]]; [done | done | done |].
    cbn [EncodeToString String.length length] in Hn |- *. rewrite IH by lia.
    replace (S (S (S (length rest))) + 2)%nat with (1 * 3 + (length rest + 2))%nat by lia.
    rewrite Nat.div_add_l by lia. lia.
Qed.

Lemma b64Alphabet_get (k : nat) : (k < 64)%nat -> is_Some (String.get k b64Alphabet).
Proof.
  intros Hk. do 64 (destruct k as [|k]; [eexists; reflexivity|]). lia.
Qed.

Definition b64Digit (c : ascii) : Prop :=
  exists k, (k < 64)%nat /\ String.get k b64Alphabet = Some c.

Lemma b64Char_digit (x : Z) : b64Digit (b64Char (Z.land x 63)).
Proof.
  assert (Hr : 0 <= Z.land x 63 < 64).
  { change 63 with (Z.ones 6). rewrite Z.land_ones by lia.
    apply Z.mod_pos_bound. lia. }
  exists (Z.to_nat (Z.land x 63)). split; [lia|].
  unfold b64Char. destruct (b64Alphabet_get (Z.to_nat (Z.land x 63))) as [c Hc]; [lia|].
  by rewrite Hc.
Qed.

(** [base64.StdEncoding.EncodeToString] produces four characters for
    every three bytes, the last group padded: [4 * ceil(n / 3)]
    characters, each a digit of the standard alphabet or [=]. *)
Theorem EncodeToString_shape (bs : list Byte.byte) :
  String.length (EncodeToString bs) = (4 * ((length bs + 2) / 3))%nat /\
  Forall (fun c => c = "="%char \/ b64Digit c) (list_ascii_of_string (EncodeToString bs)).
Proof.
  split; [by apply (EncodeToString_length_aux (length bs))|].
  remember (length bs) as n eqn:Hn. assert (Hle : (length bs <= n)%nat) by lia.
  clear Hn. revert bs Hle. induction n as [|n IH]; intros bs Hle.
  - destruct bs; [constructor | simpl in Hle; lia].
  - destruct bs as [|b1 [|b2 [|b3 rest]]]; simpl;
      repeat (constructor; [first [left; reflexivity | right; apply b64Char_digit] |]);
      try constructor.
    apply IH. simpl in Hle. lia.
Qed.

(** Encoding is compositional on 3-byte boundaries: the encoding of a
    prefix whose length is a multiple of three is a prefix of the whole
    encoding. *)
Theorem EncodeToString_app (bs1 bs2 : list Byte.byte) :
  (length bs1 mod 3 = 0)%nat ->
  EncodeToString (bs1 ++ bs2) = (EncodeToString bs1 ++ EncodeToString bs2)%string.
Proof.
  remember (length bs1) as n eqn:Hn. assert (Hle : (length bs1 <= n)%nat) by lia.
  intros Hmod. revert bs1 Hn Hle Hmod.
  induction n as [n IH] using lt_wf_ind. intros bs1 Hn Hle Hmod.
  destruct bs1 as [|b1 [|b2 [|b3 rest]]].
  - done.
  - simpl in Hn. subst. done.
  - simpl in Hn. subst. done.
  - cbn [app EncodeToString]. rewrite !string_app_cons.
    rewrite (IH (length rest)); [done | simpl in Hn; lia | done | done |].
    simpl in Hn. subst n.
    replace (S (S (S (length rest)))) with (length rest + 1 * 3)%nat in Hmod by lia.
    rewrite Nat.Div0.mod_add in Hmod. done.
Qed.

Lemma EncodeToString_app_witness :
  EncodeToString [Byte.x4d; Byte.x61; Byte.x6e; Byte.x4d] =
    (EncodeToString [Byte.x4d; Byte.x61; Byte.x6e] ++ EncodeToString [Byte.x4d])%string.
Proof.
  apply (EncodeToString_app [Byte.x4d; Byte.x61; Byte.x6e] [Byte.x4d]).
  reflexivity.
Defined.

Example EncodeToString_examples :
  EncodeToString [Byte.x4d; Byte.x61; Byte.x6e] = "TWFu" /\
  EncodeToString [Byte.x4d; Byte.x61] = "TWE=" /\
  EncodeToString [Byte.x4d] = "TQ==".
Proof. split_and!; reflexivity. Qed.

(** [imageToDataURL] builds ["data:<type>;base64,<payload>"], of length
    [13 + len(type) + 4 * ceil(n / 3)]. *)
Theorem imageToDataURL_shape (imageData : list Byte.byte) (contentType : string) :
  String.prefix ("data:" ++ contentType ++ ";base64,") (imageToDataURL imageData contentType)
    = true /\
  String.length (imageToDataURL imageData contentType) =
    (13 + String.length contentType + 4 * ((length imageData + 2) / 3))%nat.
Proof.
  split.
  - unfold imageToDataURL.
    replace ("data:" ++ contentType ++ ";base64," ++ EncodeToString imageData)%string
      with (("data:" ++ contentType ++ ";base64,") ++ EncodeToString imageData)%string
      by (rewrite !string_append_assoc; reflexivity).
    apply prefix_append.
  - unfold imageToDataURL. rewrite !string_length_append.
    rewrite (proj1 (EncodeToString_shape imageData)). simpl. lia.
Qed.

(** [extractImageURLsFromAttachments] returns at most one data URL per
    image attachment, only data URLs, and consumes the request outcomes in
    order (what is left is a suffix of them). *)
Theorem extractImageURLs_spec (attachments : list (option Attachment))
    (responses : list (option HttpResponse)) :
  (length (extractImageURLsFromAttachments attachments responses).1
     <= length (filter (fun a => isImageAttachment a) attachments))%nat /\
  Forall (fun u => String.prefix "data:" u = true)
    (extractImageURLsFromAttachments attachments responses).1 /\
  (extractImageURLsFromAttachments attachments responses).2 `suffix_of` responses.
Proof.
  revert responses. induction attachments as [|att atts IH]; intros responses.
  - simpl. split_and!; [lia | constructor | done].
  - destruct att as [a|].
    2:{ rewrite filter_cons_False by (intros H; exact H). apply IH. }
    destruct (isImageAttachment (Some a)) eqn:Himg.
    2:{ rewrite filter_cons_False by (rewrite Himg; intros H; exact H).
        cbn [extractImageURLsFromAttachments]. rewrite Himg.
        apply IH. }
    rewrite filter_cons_True by (rewrite Himg; exact I).
    cbn [extractImageURLsFromAttachments length]. rewrite Himg.
    assert (Hstep : exists fetch responses',
      (if String.eqb (aURL a) "" then (None, responses)
       else match responses with [] => (None, []) | r :: rs => (r, rs) end)
      = (fetch, responses') /\ responses' `suffix_of` responses).
    { destruct (String.eqb (aURL a) ""); [by eexists _, _|].
      destruct responses as [|r rs]; eexists _, _; split; [done | done | done |].
      by apply suffix_cons_r. }
    destruct Hstep as (fetch & responses' & -> & Hsuf).
    destruct (IH responses') as (H1 & H2 & H3).
    destruct (downloadImage (aURL a) fetch) as [[imageData contentType]|err].
    + destruct (extractImageURLsFromAttachments atts responses') as [urls pending].
      simpl in *. split_and!; [lia | | by etrans].
      constructor; [|done]. unfold imageToDataURL. apply prefix_append.
    + split_and!; [lia | done | by etrans].
Qed.

Lemma lowerAscii_idem (c : ascii) : lowerAscii (lowerAscii c) = lowerAscii c.
Proof.
  unfold lowerAscii.
  destruct (Nat.leb 65 (nat_of_ascii c) && Nat.leb (nat_of_ascii c) 90)%bool eqn:E.
  - apply andb_true_iff in E as [E1 E2]. apply Nat.leb_le in E1, E2.
    rewrite nat_ascii_embedding by lia.
    replace (Nat.leb (nat_of_ascii c + 32) 90) with false
      by (symmetry; apply Nat.leb_gt; lia).
    by rewrite andb_false_r.
  - by rewrite E.
Qed.

Lemma ToLower_idem (s : string) : ToLower (ToLower s) = ToLower s.
Proof. induction s as [|c s IH]; simpl; [done|]. by rewrite lowerAscii_idem, IH. Qed.

Lemma ToLower_eqb_empty (s : string) : String.eqb (ToLower s) "" = String.eqb s "".
Proof. by destruct s. Qed.

(** [isImageAttachment] does not depend on the case of the content type or
    of the file name. *)
Theorem isImageAttachment_case_insensitive (a : Attachment) :
  isImageAttachment (Some a) =
  isImageAttachment
    (Some (mkAttachment (aURL a) (ToLower (aFilename a)) (ToLower (aContentType a)))).
Proof.
  unfold isImageAttachment. cbn [aURL aFilename aContentType].
  by rewrite !ToLower_idem, !ToLower_eqb_empty.
Qed.

(** A file name ending in one of the supported extensions, in any case,
    makes an attachment an image, whatever content type it declares. *)
Theorem isImageAttachment_by_extension (a : Attachment) (ext : string) :
  In ext supportedExtensions ->
  HasSuffix (ToLower (aFilename a)) ext = true ->
  isImageAttachment (Some a) = true.
Proof.
  intros Hin Hs. unfold isImageAttachment.
  destruct (_ && _)%bool; [done|].
  destruct (String.eqb_spec (aFilename a) "") as [He|He].
  - exfalso. rewrite He in Hs.
    destruct Hin as [<-|[<-|[<-|[<-|[]]]]]; vm_compute in Hs; discriminate.
  - cbn [negb]. apply existsb_exists. by exists ext.
Qed.

Lemma isImageAttachment_by_extension_witness :
  isImageAttachment
    (Some (mkAttachment "https://cdn.example/a" "Photo.PNG" "application/octet-stream"))
  = true.
Proof.
  apply (isImageAttachment_by_extension
           (mkAttachment "https://cdn.example/a" "Photo.PNG" "application/octet-stream")
           ".png").
  - simpl. tauto.
  - vm_compute. reflexivity.
Defined.

(** [sendMessage] sends inline exactly the replies that fit; a longer
    reply goes out as one file ["grok_response_<timestamp>.md"] of the
    reply's text, and only when it is at most 8 MiB. On every path the
    temporary file is gone afterwards. *)
Theorem sendMessage_cleanup (maxMessageSize : Z) (env : SendEnv) (files : gset string)
    (channelID content : string) :
  tempName env ∉ files ->
  (sendMessage maxMessageSize env files channelID content).1.1 = files /\
  (Z.of_nat (String.length content) <= maxMessageSize ->
   (sendMessage maxMessageSize env files channelID content).1.2 =
     [SMessageSend channelID content]) /\
  (forall ch fn c,
     SFileSend ch fn c ∈ (sendMessage maxMessageSize env files channelID content).1.2 ->
     ch = channelID /\ c = content /\
     fn = ("grok_response_" ++ timestamp env ++ ".md")%string /\
     maxMessageSize < Z.of_nat (String.length content) <= MaxDiscordFileSize).
Proof.
  intros Hfresh. unfold sendMessage.
  destruct (Z.leb_spec (Z.of_nat (String.length content)) maxMessageSize) as [Hle|Hgt].
  - simpl. split_and!; [done | done |].
    intros ch fn c Hin. apply list_elem_of_singleton in Hin. discriminate.
  - assert (Hrm : ({[tempName env]} ∪ files) ∖ {[tempName env]} = files) by set_solver.
    unfold sendAsMarkdownFile. rewrite Hrm.
    split_and!.
    + repeat case_match; done.
    + intros Hle. lia.
    + intros ch fn c Hin.
      repeat case_match; simpl in Hin;
        try (apply elem_of_nil in Hin; done);
        apply list_elem_of_singleton in Hin; injection Hin as -> -> ->;
        match goal with
        | H : (_ >? MaxDiscordFileSize) = false |- _ =>
            rewrite Z.gtb_ltb, Z.ltb_ge in H
        end;
        split_and!; done || lia.
Qed.

Lemma sendMessage_cleanup_witness :
  (sendMessage 5 (mkSendEnv None false "tmp1" "20261018-120000") ∅ "c" "a long reply").1
  = (∅, [SFileSend "c" "grok_response_20261018-120000.md" "a long reply"]).
Proof.
  destruct (sendMessage_cleanup 5 (mkSendEnv None false "tmp1" "20261018-120000") ∅ "c"
              "a long reply") as (Hfs & _ & _).
  - set_solver.
  - rewrite <- Hfs. reflexivity.
Defined.

(** ** Configuration *)

Lemma temperature_ok_iff (t : Float64) :
  (fltLt t 0 || fltGt t 2)%bool = false <->
  (exists q, t = FFinite q /\ (0 <= q <= 2)%Q) \/ t = FNaN.
Proof.
  destruct t as [q| | |]; simpl.
  - rewrite orb_false_iff, !negb_false_iff, !Qle_bool_iff. split.
    + intros [H1 H2]. left. by exists q.
    + intros [(q' & [= <-] & H1 & H2)|]; [done | discriminate].
  - split; [discriminate|]. intros [(q & ? & _)|]; discriminate.
  - split; [discriminate|]. intros [(q & ? & _)|]; discriminate.
  - split; [by right | done].
Qed.

(** [Validate] accepts a configuration exactly when the four strings are
    set, the temperature is a number in [[0, 2]] or NaN (both comparisons
    with NaN are false), and the three limits are positive. *)
Theorem Validate_ok_iff (c : Config) :
  Validate c = None <->
  DiscordToken c <> "" /\ APIKey (Grok c) <> "" /\ BaseURL (Grok c) <> "" /\
  Model (Grok c) <> "" /\
  ((exists q, Temperature (Grok c) = FFinite q /\ (0 <= q <= 2)%Q) \/
   Temperature (Grok c) = FNaN) /\
  0 < MaxTokens (Grok c) /\ 0 < MaxHistory (Bot c) /\ 0 < MaxMessageSize (Bot c).
Proof.
  unfold Validate. rewrite <- temperature_ok_iff.
  destruct (String.eqb_spec (DiscordToken c) "") as [H|H];
    [split; [discriminate | by intros (? & _)]|].
  destruct (String.eqb_spec (APIKey (Grok c)) "") as [H'|H'];
    [split; [discriminate | by intros (_ & ? & _)]|].
  destruct (String.eqb_spec (BaseURL (Grok c)) "") as [H''|H''];
    [split; [discriminate | by intros (_ & _ & ? & _)]|].
  destruct (String.eqb_spec (Model (Grok c)) "") as [H'''|H'''];
    [split; [discriminate | by intros (_ & _ & _ & ? & _)]|].
  destruct (fltLt (Temperature (Grok c)) 0 || fltGt (Temperature (Grok c)) 2)%bool;
    [split; [discriminate | by intros (_ & _ & _ & _ & ? & _)]|].
  destruct (Z.leb_spec (MaxTokens (Grok c)) 0);
    [split; [discriminate | intros (_ & _ & _ & _ & _ & ? & _); lia]|].
  destruct (Z.leb_spec (MaxHistory (Bot c)) 0);
    [split; [discriminate | intros (_ & _ & _ & _ & _ & _ & ? & _); lia]|].
  destruct (Z.leb_spec (MaxMessageSize (Bot c)) 0);
    [split; [discriminate | intros (_ & _ & _ & _ & _ & _ & _ & ?); lia]|].
  split; [intros _; split_and!; done || lia | done].
Qed.

(** [DefaultConfig] alone is rejected for its missing Discord token; with
    both secrets set it passes [Validate] exactly when they are non-empty. *)
Theorem DefaultConfig_Validate (systemMessage token apiKey : string) :
  Validate (DefaultConfig systemMessage) = Some "discord token is required" /\
  (Validate (withSecrets (DefaultConfig systemMessage) token apiKey) = None <->
   token <> "" /\ apiKey <> "").
Proof.
  split; [reflexivity|].
  unfold Validate, withSecrets, DefaultConfig. cbn [DiscordToken Grok Bot APIKey].
  destruct (String.eqb_spec token "") as [H|H]; [split; [discriminate | by intros []]|].
  destruct (String.eqb_spec apiKey "") as [H'|H']; [split; [discriminate | by intros []]|].
  split; [done|]. intros _. reflexivity.
Qed.

(** ** Reading the reply *)

(** A decoded reply yields text exactly when its first choice's content is
    a JSON string, and then that string; no choices, or content of any
    other shape, is an error. *)
Theorem replyOfChoices_ok_iff (choices : list JSON) (s : string) :
  replyOfChoices choices = CompletionOk s <-> exists rest, choices = JString s :: rest.
Proof.
  split.
  - destruct choices as [|c rest]; [discriminate|].
    destruct c; simpl; try discriminate. intros [= ->]. by exists rest.
  - intros (rest & ->). reflexivity.
Qed.
